(** * TrackLink: visit tracking, link registry and analytics

    A shallow embedding of the server side of the tracking-link application:
    - [src/lib/utils/location.ts]: [getClientIP], [getLocationFromIP],
      [parseUserAgent];
    - [src/lib/database.ts]: the [DatabaseManager] methods over the two
      SQLite tables [links] and [visitors];
    - the route handlers [POST /api/track], [POST /api/links] and
      [GET /api/analytics].

    Conventions of the embedding.
    - Strings are [string]s of 8-bit characters (header values and JSON text
      as bytes, read as Latin-1).
    - A JavaScript [number] that carries a measurement (latitude, longitude,
      accuracy) is an exact rational [Q]; [undefined]/[null] is [None].
    - A timestamp column holds the text [Date.prototype.toISOString] gives
      and SQLite compares such texts byte by byte.  For the dates of the
      years 0000 to 9999 the text has the one shape
      [YYYY-MM-DDTHH:mm:ss.sssZ] and the order of the texts is the order of
      the instants; a timestamp is modelled by its time value, the integer
      number of milliseconds since the epoch, and the model speaks for that
      range of dates ([four_digit_year]).  Outside it the text starts with
      a sign and six digits and sorts before every four-digit year.
    - A table is the list of its rows in insertion order.
    - [uuidv4()], [new Date()] and [fetch] are inputs of a handler, gathered
      in an environment record; every [fetch] is recorded in a log so that
      "no external call" is a statement about that log.
    - Handlers run in a state-and-exception monad: a [throw] keeps the
      mutations made before it, as in JavaScript. *)

From Stdlib Require Import ZArith QArith Qround String Ascii List Bool Lia.
From Stdlib Require Import Sorting.Sorted Sorting.Permutation.
Import ListNotations.

Open Scope string_scope.
Open Scope list_scope.
Open Scope Z_scope.

(* ================================================================== *)
(** * JavaScript values *)

(** ** Strings *)

(** [s.startsWith(p)]. *)
Definition startsWith (s p : string) : bool := String.prefix p s.

(** [s.includes(sub)]: [sub] occurs at some position of [s]. *)
Fixpoint includes (s sub : string) : bool :=
  if String.prefix sub s then true
  else match s with
       | EmptyString => false
       | String _ s' => includes s' sub
       end.

(** [String.prototype.toLowerCase] on one Latin-1 code unit: [A]-[Z] and
    the accented capitals U+00C0-U+00DE (U+00D7, the multiplication sign,
    apart) move up by 32; everything else is unchanged. *)
Definition lower_char (c : ascii) : ascii :=
  let n := nat_of_ascii c in
  if ((65 <=? n) && (n <=? 90))%nat then ascii_of_nat (n + 32)
  else if ((192 <=? n) && (n <=? 222) && negb (n =? 215))%nat
       then ascii_of_nat (n + 32)
  else c.

Fixpoint toLowerCase (s : string) : string :=
  match s with
  | EmptyString => EmptyString
  | String c s' => String (lower_char c) (toLowerCase s')
  end.

(** White space of [String.prototype.trim] among 8-bit characters:
    TAB, LF, VT, FF, CR, SPACE and NO-BREAK SPACE. *)
Definition is_space (c : ascii) : bool :=
  let n := nat_of_ascii c in
  (((9 <=? n) && (n <=? 13)) || (n =? 32) || (n =? 160))%nat.

Fixpoint trimStart (s : string) : string :=
  match s with
  | String c s' => if is_space c then trimStart s' else s
  | EmptyString => EmptyString
  end.

Fixpoint trimEnd (s : string) : string :=
  match s with
  | EmptyString => EmptyString
  | String c s' =>
      match trimEnd s' with
      | EmptyString => if is_space c then EmptyString else String c EmptyString
      | t => String c t
      end
  end.

Definition trim (s : string) : string := trimEnd (trimStart s).

(** [s.split(',')[0]]: the text before the first comma. *)
Fixpoint split_comma_first (s : string) : string :=
  match s with
  | EmptyString => EmptyString
  | String c s' =>
      if Ascii.eqb c ","%char then EmptyString
      else String c (split_comma_first s')
  end.

(** Truthiness of a string: non-empty. *)
Definition truthy_str (s : string) : bool :=
  match s with EmptyString => false | _ => true end.

(** Truthiness of an optional string ([null], [undefined] and [''] are
    falsy). *)
Definition truthy_ostr (o : option string) : bool :=
  match o with Some s => truthy_str s | None => false end.

(** [o || d] for an optional string and a string default. *)
Definition or_str (o : option string) (d : string) : string :=
  match o with
  | Some s => if truthy_str s then s else d
  | None => d
  end.

(** [o || null] (equally [o || undefined]) for an optional string. *)
Definition or_null_str (o : option string) : option string :=
  match o with
  | Some s => if truthy_str s then Some s else None
  | None => None
  end.

(** ** Measurements *)

(** Truthiness of a number: not zero (there is no [NaN] among
    measurements). *)
Definition truthy_num (q : Q) : bool := negb (Qeq_bool q 0).

Definition truthy_onum (o : option Q) : bool :=
  match o with Some q => truthy_num q | None => false end.

(** [a || b] for two optional numbers. *)
Definition or_num (a b : option Q) : option Q :=
  if truthy_onum a then a else b.

(** [a || null] (equally [a || undefined]) for an optional number. *)
Definition or_null_num (a : option Q) : option Q :=
  if truthy_onum a then a else None.

(** [a > b]. *)
Definition Qgt_bool (a b : Q) : bool := negb (Qle_bool a b).

(** ** Numbers of the analytics arithmetic *)

(** The values that [parseInt], [/] and [Math.round] exchange: a finite
    value (an exact rational; [Num 0] is [+0]), the negative zero, the two
    infinities and [NaN]. *)
Inductive number : Type :=
| NaN
| PInf
| NInf
| NegZero
| Num (q : Q).

Definition is_neg (n : number) : bool :=
  match n with
  | NInf | NegZero => true
  | Num q => negb (Qle_bool 0 q)
  | _ => false
  end.

Definition is_zero (n : number) : bool :=
  match n with
  | NegZero => true
  | Num q => Qeq_bool q 0
  | _ => false
  end.

Definition is_inf (n : number) : bool :=
  match n with PInf | NInf => true | _ => false end.

Definition qval (n : number) : Q :=
  match n with Num q => q | _ => 0%Q end.

Definition mk_zero (neg : bool) : number := if neg then NegZero else Num 0.
Definition mk_inf (neg : bool) : number := if neg then NInf else PInf.

(** [a / b]. *)
Definition num_div (a b : number) : number :=
  match a, b with
  | NaN, _ => NaN
  | _, NaN => NaN
  | _, _ =>
      let neg := xorb (is_neg a) (is_neg b) in
      if is_inf a then (if is_inf b then NaN else mk_inf neg)
      else if is_inf b then mk_zero neg
      else if is_zero b then (if is_zero a then NaN else mk_inf neg)
      else if is_zero a then mk_zero neg
      else Num (qval a / qval b)
  end.

(** [Math.round(x)]: the integer nearest to [x], ties towards [+Infinity];
    a result of zero keeps the sign of [x]. *)
Definition Math_round (x : number) : number :=
  match x with
  | Num q =>
      let r := Qfloor (q + (1 # 2))%Q in
      if (r =? 0) && negb (Qle_bool 0 q) then NegZero else Num (inject_Z r)
  | _ => x
  end.

(** The value of one digit in the given radix. *)
Definition digit_of (radix : Z) (c : ascii) : option Z :=
  let n := Z.of_nat (nat_of_ascii c) in
  let d := if (48 <=? n) && (n <=? 57) then Some (n - 48)
           else if (97 <=? n) && (n <=? 122) then Some (n - 87)
           else if (65 <=? n) && (n <=? 90) then Some (n - 55)
           else None in
  match d with
  | Some v => if v <? radix then Some v else None
  | None => None
  end.

(** The longest prefix of digits, read in the radix; [None] when the text
    starts with no digit. *)
Fixpoint parse_digits (radix : Z) (s : string) (acc : option Z) : option Z :=
  match s with
  | EmptyString => acc
  | String c s' =>
      match digit_of radix c with
      | Some d =>
          parse_digits radix s'
            (Some (match acc with Some a => a * radix + d | None => d end))
      | None => acc
      end
  end.

(** [parseInt(s)] with no radix argument. *)
Definition parseInt (s : string) : number :=
  let s1 := trimStart s in
  let '(neg, s2) :=
    match s1 with
    | String "-"%char r => (true, r)
    | String "+"%char r => (false, r)
    | _ => (false, s1)
    end in
  let '(radix, s3) :=
    match s2 with
    | String "0"%char (String "x"%char r) => (16, r)
    | String "0"%char (String "X"%char r) => (16, r)
    | _ => (10, s2)
    end in
  match parse_digits radix s3 None with
  | None => NaN
  | Some n =>
      if neg then (if n =? 0 then NegZero else Num (inject_Z (- n)))
      else Num (inject_Z n)
  end.

(* ================================================================== *)
(** * Data model ([src/lib/database.ts]) *)

(** A row of [links]. *)
Module TrackingLink.
Record t : Type := mk {
  id : string;
  alias : string;
  original_url : string;
  description : option string;
  created_at : Z;
  expires_at : option Z;
  click_count : Z;
  is_active : bool
}.
End TrackingLink.
Abbreviation TrackingLink := TrackingLink.t.

(** A row of [visitors]. *)
Module Visitor.
Record t : Type := mk {
  id : string;
  link_id : string;
  ip_address : string;
  latitude : option Q;
  longitude : option Q;
  country : option string;
  city : option string;
  device : option string;
  browser : option string;
  user_agent : option string;
  visited_at : Z
}.
End Visitor.
Abbreviation Visitor := Visitor.t.

(** The database: both tables, rows in insertion order. *)
Record Db : Type := mkDb {
  links : list TrackingLink;
  visitors : list Visitor
}.

(** [LocationData] of [location.ts]. *)
Record LocationData : Type := mkLocation {
  loc_latitude : option Q;
  loc_longitude : option Q;
  loc_country : option string;
  loc_city : option string;
  loc_ip : option string
}.

(** [DeviceInfo] of [location.ts]. *)
Record DeviceInfo : Type := mkDevice {
  dev_device : string;
  dev_browser : string;
  dev_userAgent : string
}.

(** [Omit<Visitor, 'id' | 'visited_at' | 'link_id'>], the argument of
    [recordVisitor]. *)
Record VisitorData : Type := mkVisitorData {
  vd_ip_address : string;
  vd_latitude : option Q;
  vd_longitude : option Q;
  vd_country : option string;
  vd_city : option string;
  vd_device : option string;
  vd_browser : option string;
  vd_user_agent : option string
}.

(* ================================================================== *)
(** * Effects *)

(** What a handler can [throw]. *)
Inductive exn : Type :=
| ZodError
| SqliteError
| FetchError
| HttpError (status : Z)
| SyntaxError
| TypeError
| RangeError.

(** The JSON value of an ipapi.co answer, as far as the resolver reads it:
    [null] (reading a property of it throws), an object with the four
    properties it reads (each possibly missing), or any other value (all
    four properties are [undefined]). *)
Inductive JsonData : Type :=
| JNull
| JObject (latitude longitude : option Q) (country_name city : option string)
| JOther.

(** An HTTP response: its status and its body, [None] when the body is not
    JSON text. *)
Record Response : Type := mkResponse {
  resp_status : Z;
  resp_body : option JsonData
}.

(** The outcome of [await fetch(url)]: the promise rejects (network error,
    timeout) or resolves with a response. *)
Inductive FetchOutcome : Type :=
| Rejected
| Responded (r : Response).

(** The mutable world of a request: the database and the log of the URLs
    fetched so far (latest last). *)
Record World : Type := mkWorld {
  db : Db;
  fetch_log : list string
}.

(** The inputs a handler reads from outside: the network, the clock at the
    handler's own [new Date()], and the [uuidv4()] and [new Date()] values
    drawn inside the database method it calls. *)
Record Env : Type := mkEnv {
  fetch : string -> FetchOutcome;
  date_now : Z;
  uuidv4 : string;
  db_now : Z
}.

(** State and exceptions: a computation maps a world to a result or an
    exception, and the world it leaves behind. *)
Definition M (A : Type) : Type := World -> (exn + A) * World.

Definition ret {A} (a : A) : M A := fun w => (inr a, w).

Definition throw {A} (e : exn) : M A := fun w => (inl e, w).

Definition bind {A B} (c : M A) (k : A -> M B) : M B :=
  fun w =>
    match c w with
    | (inr a, w') => k a w'
    | (inl e, w') => (inl e, w')
    end.

(** [try { c } catch (e) { h e }]. *)
Definition try_catch {A} (c : M A) (h : exn -> M A) : M A :=
  fun w =>
    match c w with
    | (inr a, w') => (inr a, w')
    | (inl e, w') => h e w'
    end.

Definition get_db : M Db := fun w => (inr (db w), w).

Definition put_db (d : Db) : M unit :=
  fun w => (inr tt, mkWorld d (fetch_log w)).

Notation "x <- c ;; k" := (bind c (fun x => k))
  (at level 61, c at next level, right associativity).
Notation "c ;;; k" := (bind c (fun _ => k))
  (at level 61, right associativity).

(** [await fetch(url, ...)]: the call is logged, then resolves or
    rejects. *)
Definition do_fetch (env : Env) (url : string) : M Response :=
  fun w =>
    let w' := mkWorld (db w) (fetch_log w ++ [url]) in
    match fetch env url with
    | Rejected => (inl FetchError, w')
    | Responded r => (inr r, w')
    end.

(** [response.ok]: a status in 200..299. *)
Definition response_ok (r : Response) : bool :=
  (200 <=? resp_status r) && (resp_status r <=? 299).

(** [await response.json()]. *)
Definition response_json (r : Response) : M JsonData :=
  match resp_body r with
  | Some d => ret d
  | None => throw SyntaxError
  end.

(* ================================================================== *)
(** * [src/lib/utils/location.ts] *)

(** The request headers the handlers read; [None] when [headers.get]
    returns [null]. *)
Record Headers : Type := mkHeaders {
  x_forwarded_for : option string;
  x_real_ip : option string;
  remote_addr : option string;
  user_agent_header : option string
}.

Definition getClientIP (h : Headers) : string :=
  let forwarded := x_forwarded_for h in
  let realIP := x_real_ip h in
  let remoteAddress := remote_addr h in
  match forwarded with
  | Some f =>
      if truthy_str f then trim (split_comma_first f)
      else or_str realIP (or_str remoteAddress "unknown")
  | None => or_str realIP (or_str remoteAddress "unknown")
  end.

(** The test that skips localhost and private addresses. *)
Definition is_local_ip (ip : string) : bool :=
  String.eqb ip "unknown" || String.eqb ip "127.0.0.1" || String.eqb ip "::1"
  || startsWith ip "192.168." || startsWith ip "10." || startsWith ip "172.".

(** The value returned for a skipped address. *)
Definition local_location (ip : string) : LocationData :=
  mkLocation (Some 0%Q) (Some 0%Q) (Some "Local") (Some "Local Development")
             (Some ip).

(** The value returned from the [catch] block. *)
Definition unknown_location (ip : string) : LocationData :=
  mkLocation None None (Some "Unknown") (Some "Unknown") (Some ip).

(** The object built from a parsed answer; reading a property of [null]
    throws. *)
Definition location_of_json (ip : string) (data : JsonData) : M LocationData :=
  match data with
  | JNull => throw TypeError
  | JObject lat lon country_name city =>
      ret (mkLocation (or_null_num lat) (or_null_num lon)
                      (or_null_str country_name) (or_null_str city) (Some ip))
  | JOther => ret (mkLocation None None None None (Some ip))
  end.

Definition getLocationFromIP (env : Env) (ip : string) : M LocationData :=
  try_catch
    (if is_local_ip ip then ret (local_location ip)
     else
       response <- do_fetch env ("https://ipapi.co/" ++ ip ++ "/json/") ;;
       if negb (response_ok response)
       then throw (HttpError (resp_status response))
       else
         data <- response_json response ;;
         location_of_json ip data)
    (fun _ => ret (unknown_location ip)).

(** Device class of a lower-cased user agent. *)
Definition classify_device (ua : string) : string :=
  if includes ua "mobile" || includes ua "android" || includes ua "iphone"
  then "Mobile"
  else if includes ua "tablet" || includes ua "ipad" then "Tablet"
  else "Desktop".

(** Browser name of a lower-cased user agent. *)
Definition classify_browser (ua : string) : string :=
  if includes ua "chrome" && negb (includes ua "edg") then "Chrome"
  else if includes ua "firefox" then "Firefox"
  else if includes ua "safari" && negb (includes ua "chrome") then "Safari"
  else if includes ua "edg" then "Edge"
  else if includes ua "opera" || includes ua "opr" then "Opera"
  else "Unknown".

Definition parseUserAgent (userAgent : string) : DeviceInfo :=
  let ua := toLowerCase userAgent in
  mkDevice (classify_device ua) (classify_browser ua) userAgent.

(* ================================================================== *)
(** * [src/lib/database.ts]: the [DatabaseManager] methods

    A prepared statement is modelled by the relational meaning of its SQL
    text on the two tables of [initializeTables]:
    - [links]: [id] is the primary key and [alias] is declared [UNIQUE], so
      an [INSERT] whose [id] or [alias] is already held by a row (active or
      not) throws;
    - [visitors]: [id] is the primary key and [link_id] references
      [links(id)], so an [INSERT] whose [id] is taken or whose [link_id]
      names no link throws.
    The statements of the methods modelled here, [getClickStats] apart,
    are fixed texts that SQLite accepts, each run with as many values as
    it has placeholders.  [getClickStats] builds its texts at run time;
    they are kept as texts and go through [prepare] and [bind_parameters]
    below.
    [uuidv4()] and [new Date()] inside a method are arguments [id] and [now]
    of its model. *)

(** The time values whose ISO text has a four-digit year: from
    [0000-01-01T00:00:00.000Z] up to, not including,
    [+010000-01-01T00:00:00.000Z]. *)
Definition four_digit_year (t : Z) : bool :=
  (-62167219200000 <=? t) && (t <? 253402300800000).

(** [INSERT INTO links ...]. *)
Definition insert_link (row : TrackingLink) : M unit :=
  d <- get_db ;;
  if existsb (fun l => String.eqb (TrackingLink.id l) (TrackingLink.id row))
             (links d)
     || existsb (fun l => String.eqb (TrackingLink.alias l)
                                     (TrackingLink.alias row))
                (links d)
  then throw SqliteError
  else put_db (mkDb (links d ++ [row]) (visitors d)).

Definition createLink (id : string) (now : Z) (alias originalUrl : string)
    (description : option string) (expiresAt : option Z) : M TrackingLink :=
  insert_link (TrackingLink.mk id alias originalUrl (or_null_str description)
                               now expiresAt 0 true) ;;;
  ret (TrackingLink.mk id alias originalUrl description now expiresAt 0 true).

(** [SELECT * FROM links WHERE alias = ? AND is_active = 1], first row. *)
Definition getLinkByAlias (alias : string) : M (option TrackingLink) :=
  d <- get_db ;;
  ret (find (fun l => String.eqb (TrackingLink.alias l) alias
                      && TrackingLink.is_active l)
            (links d)).

(** [SELECT * FROM links WHERE id = ?], first row. *)
Definition getLinkById (id : string) : M (option TrackingLink) :=
  d <- get_db ;;
  ret (find (fun l => String.eqb (TrackingLink.id l) id) (links d)).

(** One row after [SET click_count = click_count + 1]. *)
Definition bump (l : TrackingLink) : TrackingLink :=
  TrackingLink.mk (TrackingLink.id l) (TrackingLink.alias l)
    (TrackingLink.original_url l) (TrackingLink.description l)
    (TrackingLink.created_at l) (TrackingLink.expires_at l)
    (TrackingLink.click_count l + 1) (TrackingLink.is_active l).

(** One row after [SET is_active = 0]. *)
Definition deactivate (l : TrackingLink) : TrackingLink :=
  TrackingLink.mk (TrackingLink.id l) (TrackingLink.alias l)
    (TrackingLink.original_url l) (TrackingLink.description l)
    (TrackingLink.created_at l) (TrackingLink.expires_at l)
    (TrackingLink.click_count l) false.

(** [UPDATE links SET ... WHERE cond]. *)
Definition update_links (cond : TrackingLink -> bool)
    (set : TrackingLink -> TrackingLink) : M unit :=
  d <- get_db ;;
  put_db (mkDb (map (fun l => if cond l then set l else l) (links d))
               (visitors d)).

Definition incrementClickCount (linkId : string) : M unit :=
  update_links (fun l => String.eqb (TrackingLink.id l) linkId) bump.

Definition deleteLink (id : string) : M unit :=
  update_links (fun l => String.eqb (TrackingLink.id l) id) deactivate.

(** [UPDATE links SET is_active = 0 WHERE expires_at < ? AND expires_at IS
    NOT NULL], with the ISO text of the current time for [?].  The
    comparison of the two texts is the comparison of the two time values
    when both are [four_digit_year]s. *)
Definition cleanupExpiredLinks (now : Z) : M unit :=
  update_links
    (fun l => match TrackingLink.expires_at l with
              | Some e => e <? now
              | None => false
              end)
    deactivate.

(** The row that [recordVisitor] writes: every optional value goes through
    [|| null]. *)
Definition visitor_row (id : string) (now : Z) (linkId : string)
    (visitorData : VisitorData) : Visitor :=
  Visitor.mk id linkId (vd_ip_address visitorData)
    (or_null_num (vd_latitude visitorData))
    (or_null_num (vd_longitude visitorData))
    (or_null_str (vd_country visitorData))
    (or_null_str (vd_city visitorData))
    (or_null_str (vd_device visitorData))
    (or_null_str (vd_browser visitorData))
    (or_null_str (vd_user_agent visitorData))
    now.

(** The object that [recordVisitor] returns:
    [{ id, link_id, visited_at, ...visitorData }]. *)
Definition visitor_object (id : string) (now : Z) (linkId : string)
    (visitorData : VisitorData) : Visitor :=
  Visitor.mk id linkId (vd_ip_address visitorData)
    (vd_latitude visitorData) (vd_longitude visitorData)
    (vd_country visitorData) (vd_city visitorData)
    (vd_device visitorData) (vd_browser visitorData)
    (vd_user_agent visitorData)
    now.

(** [INSERT INTO visitors ...]. *)
Definition insert_visitor (row : Visitor) : M unit :=
  d <- get_db ;;
  if existsb (fun v => String.eqb (Visitor.id v) (Visitor.id row))
             (visitors d)
     || negb (existsb (fun l => String.eqb (TrackingLink.id l)
                                           (Visitor.link_id row))
                      (links d))
  then throw SqliteError
  else put_db (mkDb (links d) (visitors d ++ [row])).

Definition recordVisitor (id : string) (now : Z) (linkId : string)
    (visitorData : VisitorData) : M Visitor :=
  insert_visitor (visitor_row id now linkId visitorData) ;;;
  ret (visitor_object id now linkId visitorData).

(** [ORDER BY visited_at DESC]: insertion into a list already in
    descending order.  SQL leaves the order of rows with equal timestamps
    open; here the row inserted later in the table comes first. *)
Fixpoint insert_desc (v : Visitor) (l : list Visitor) : list Visitor :=
  match l with
  | [] => [v]
  | x :: l' =>
      if Visitor.visited_at x <? Visitor.visited_at v then v :: l
      else x :: insert_desc v l'
  end.

Definition order_by_visited_at_desc (l : list Visitor) : list Visitor :=
  fold_right insert_desc [] l.

(** The rows a statistics query ranges over: [WHERE link_id = ?] is added
    when [linkId] is truthy. *)
Definition stats_rows (linkId : option string) (d : Db) : list Visitor :=
  match linkId with
  | Some k =>
      if truthy_str k
      then filter (fun v => String.eqb (Visitor.link_id v) k) (visitors d)
      else visitors d
  | None => visitors d
  end.

Definition getVisitorsByLinkId (linkId : string) : M (list Visitor) :=
  d <- get_db ;;
  ret (order_by_visited_at_desc
         (filter (fun v => String.eqb (Visitor.link_id v) linkId)
                 (visitors d))).

(** ** The statistics statements

    [getClickStats] assembles the texts of its four statements with [+=]
    and [replace] before it prepares them. *)

Definition star : string := "*".

(** A line break of a template literal. *)
Definition nl : string := String (ascii_of_nat 10) EmptyString.

(** The number of positions of [s] at which [sub] occurs. *)
Fixpoint count_sub (s sub : string) : nat :=
  match s with
  | EmptyString => if String.prefix sub s then 1%nat else 0%nat
  | String _ s' =>
      ((if String.prefix sub s then 1 else 0) + count_sub s' sub)%nat
  end.

(** [s] without its first [n] characters. *)
Fixpoint drop_chars (n : nat) (s : string) : string :=
  match n, s with
  | O, _ => s
  | S n', String _ s' => drop_chars n' s'
  | S _, EmptyString => EmptyString
  end.

(** [s.replace(pattern, replacement)] with a string pattern: the first
    occurrence only, and [s] itself when there is none. *)
Fixpoint replace (s pattern replacement : string) : string :=
  if String.prefix pattern s
  then (replacement ++ drop_chars (String.length pattern) s)%string
  else match s with
       | EmptyString => EmptyString
       | String c s' => String c (replace s' pattern replacement)
       end.

Definition clicksQuery (linkId : option string) : string :=
  let clicksQuery :=
    ("SELECT COUNT(" ++ star ++ ") as total FROM visitors")%string in
  if truthy_ostr linkId
  then (clicksQuery ++ " WHERE link_id = ?")%string
  else clicksQuery.

Definition uniqueQuery (linkId : option string) : string :=
  let uniqueQuery :=
    "SELECT COUNT(DISTINCT ip_address) as unique FROM visitors" in
  if truthy_ostr linkId
  then (uniqueQuery ++ " WHERE link_id = ?")%string
  else uniqueQuery.

Definition countriesQuery (linkId : option string) : string :=
  let countriesQuery :=
    (nl ++ "      SELECT country, COUNT(" ++ star ++ ") as count "
     ++ nl ++ "      FROM visitors "
     ++ nl ++ "      WHERE country IS NOT NULL"
     ++ nl ++ "      GROUP BY country "
     ++ nl ++ "      ORDER BY count DESC"
     ++ nl ++ "      LIMIT 10"
     ++ nl ++ "    ")%string in
  if truthy_ostr linkId
  then replace countriesQuery "FROM visitors"
               "FROM visitors WHERE link_id = ?"
  else countriesQuery.

Definition recentQuery (linkId : option string) : string :=
  let recentQuery :=
    "SELECT * FROM visitors ORDER BY visited_at DESC LIMIT 10" in
  if truthy_ostr linkId
  then replace recentQuery "FROM visitors"
               "FROM visitors WHERE link_id = ?"
  else recentQuery.

(** ** The driver ([better-sqlite3]) on these texts *)

(** A prepared statement: its text and the number of [?] placeholders
    that SQLite counted in it. *)
Record Statement : Type := mkStatement {
  source : string;
  placeholders : nat
}.

(** What SQLite's parser refuses in the texts above: [unique] is a
    reserved word and cannot name a result column ([near "unique": syntax
    error]), and a [SELECT] has one [WHERE] clause ([near "WHERE": syntax
    error]). *)
Definition sqlite_refuses (sql : string) : bool :=
  includes sql " as unique " || (2 <=? count_sub sql "WHERE")%nat.

(** [this.db.prepare(sql)]: compiles the text, or throws. *)
Definition prepare (sql : string) : M Statement :=
  if sqlite_refuses sql then throw SqliteError
  else ret (mkStatement sql (count_sub sql "?")).

(** [stmt.get(...values)] and [stmt.all(...values)] first bind the values
    they are given to the placeholders, one each and in order.  The driver
    throws when the numbers differ: a [RangeError], "Too many parameter
    values were provided" or "Too few parameter values were provided".
    [getClickStats] passes [undefined] ([None]) only where the text has no
    placeholder. *)
Definition bind_parameters (stmt : Statement) (values : list (option string))
    : M unit :=
  if (length values =? placeholders stmt)%nat then ret tt
  else throw RangeError.

(** ** What the four statements select *)

(** [GROUP BY country] with [COUNT( * )]: one entry a country, in the order
    of first appearance. *)
Fixpoint count_country (country : string) (acc : list (string * Z))
    : list (string * Z) :=
  match acc with
  | [] => [(country, 1)]
  | (k, n) :: acc' =>
      if String.eqb k country then (k, n + 1) :: acc'
      else (k, n) :: count_country country acc'
  end.

Definition group_by_country (rows : list Visitor) : list (string * Z) :=
  fold_left
    (fun acc v =>
       match Visitor.country v with
       | Some c => count_country c acc
       | None => acc
       end)
    rows [].

(** [ORDER BY count DESC]; SQL leaves the order of equal counts open. *)
Fixpoint insert_count_desc (e : string * Z) (l : list (string * Z))
    : list (string * Z) :=
  match l with
  | [] => [e]
  | x :: l' =>
      if snd x <? snd e then e :: l else x :: insert_count_desc e l'
  end.

Definition order_by_count_desc (l : list (string * Z)) : list (string * Z) :=
  fold_right insert_count_desc [] l.

(** The result of [getClickStats]. *)
Record ClickStats : Type := mkStats {
  totalClicks : Z;
  uniqueVisitors : Z;
  countries : list (string * Z);
  recentVisits : list Visitor
}.

(** Each statement is prepared and then run, in the order of the source:
    [clicksQuery] and [uniqueQuery] through [.get(linkId)], which passes
    one value whether or not the text has a placeholder; [countriesQuery]
    and [recentQuery] through [.all(...)] with [[linkId]] or [[]].  A
    [COUNT] gives one row, so [?.total || 0] and [?.unique || 0] are the
    counts. *)
Definition getClickStats (linkId : option string) : M ClickStats :=
  d <- get_db ;;
  let rows := stats_rows linkId d in
  stmt <- prepare (clicksQuery linkId) ;;
  bind_parameters stmt [linkId] ;;;
  let totalClicks := Z.of_nat (length rows) in
  stmt <- prepare (uniqueQuery linkId) ;;
  bind_parameters stmt [linkId] ;;;
  let uniqueVisitors :=
    Z.of_nat (length (nodup string_dec (map Visitor.ip_address rows))) in
  let countriesParams := if truthy_ostr linkId then [linkId] else [] in
  stmt <- prepare (countriesQuery linkId) ;;
  bind_parameters stmt countriesParams ;;;
  let countries := firstn 10 (order_by_count_desc (group_by_country rows)) in
  let recentParams := if truthy_ostr linkId then [linkId] else [] in
  stmt <- prepare (recentQuery linkId) ;;
  bind_parameters stmt recentParams ;;;
  let recentVisits := firstn 10 (order_by_visited_at_desc rows) in
  ret (mkStats totalClicks uniqueVisitors countries recentVisits).

(** A [Date] is its time value in milliseconds, [None] when the date is
    invalid (a time value beyond 8.64e15 in magnitude, or [NaN]). *)
Definition max_time : Z := 8640000000000000.

Definition make_date (t : Z) : option Z :=
  if Z.abs t <=? max_time then Some t else None.

(** [date.toISOString()]: throws on an invalid date. *)
Definition toISOString (date : option Z) : M Z :=
  match date with
  | Some t => ret t
  | None => throw RangeError
  end.

(** [SELECT * FROM visitors WHERE visited_at BETWEEN ? AND ?
    ORDER BY visited_at DESC], with the ISO texts of the two dates.  The
    comparisons of the texts are the comparisons of the time values when
    the bounds and the visits are [four_digit_year]s. *)
Definition getVisitorsByDateRange (startDate endDate : option Z)
    : M (list Visitor) :=
  s <- toISOString startDate ;;
  e <- toISOString endDate ;;
  d <- get_db ;;
  ret (order_by_visited_at_desc
         (filter (fun v => (s <=? Visitor.visited_at v)
                           && (Visitor.visited_at v <=? e))
                 (visitors d))).

(* ================================================================== *)
(** * [POST /api/track] *)

(** The JSON body of a tracking request, with the types the schema asks
    for (an ill-typed body is rejected by the schema as well). *)
Record TrackBody : Type := mkTrackBody {
  linkId : string;
  latitude : option Q;
  longitude : option Q;
  accuracy : option Q;
  gpsEnabled : option bool
}.

Record TrackRequest : Type := mkTrackRequest {
  headers : Headers;
  body : TrackBody
}.

(** The [visitor] object of a successful answer. *)
Record VisitorView : Type := mkView {
  view_id : string;
  view_country : option string;
  view_city : option string;
  view_coordinates : option (Q * Q);
  view_device : option string;
  view_browser : option string;
  view_timestamp : Z
}.

(** The answer: [{ success: true, visitor }] with status 200, or
    [{ error }] with the given status. *)
Inductive TrackResponse : Type :=
| TrackOk (visitor : VisitorView)
| TrackError (status : Z) (error : string).

Definition in_range (lo hi : Q) (o : option Q) : bool :=
  match o with
  | Some q => Qle_bool lo q && Qle_bool q hi
  | None => true
  end.

(** What [trackVisitorSchema] accepts. *)
Definition trackVisitorSchema (b : TrackBody) : bool :=
  truthy_str (linkId b)
  && in_range (-90) 90 (latitude b)
  && in_range (-180) 180 (longitude b).

Definition trackVisitorSchema_parse (b : TrackBody) : M TrackBody :=
  if trackVisitorSchema b then ret b else throw ZodError.

(** [link.expires_at && new Date(link.expires_at) < new Date()]. *)
Definition has_expired (link : TrackingLink) (now : Z) : bool :=
  match TrackingLink.expires_at link with
  | Some e => e <? now
  | None => false
  end.

(** [!latitude || !longitude || (accuracy && accuracy > 1000)]. *)
Definition needs_ip_location (b : TrackBody) : bool :=
  negb (truthy_onum (latitude b))
  || negb (truthy_onum (longitude b))
  || match accuracy b with
     | Some a => truthy_num a && Qgt_bool a 1000
     | None => false
     end.

(** The [locationData] of the handler (its [ip] property is not set). *)
Definition determine_location (env : Env) (ip : string) (b : TrackBody)
    : M LocationData :=
  if needs_ip_location b then
    ipLocation <- getLocationFromIP env ip ;;
    ret (mkLocation (or_num (latitude b) (loc_latitude ipLocation))
                    (or_num (longitude b) (loc_longitude ipLocation))
                    (loc_country ipLocation)
                    (loc_city ipLocation)
                    None)
  else ret (mkLocation (latitude b) (longitude b) None None None).

(** [visitor.latitude && visitor.longitude ? { lat, lng } : null]. *)
Definition coordinates_of (v : Visitor) : option (Q * Q) :=
  match Visitor.latitude v, Visitor.longitude v with
  | Some la, Some lo =>
      if truthy_num la && truthy_num lo then Some (la, lo) else None
  | _, _ => None
  end.

Definition view_of (v : Visitor) : VisitorView :=
  mkView (Visitor.id v) (Visitor.country v) (Visitor.city v)
         (coordinates_of v) (Visitor.device v) (Visitor.browser v)
         (Visitor.visited_at v).

Definition track_POST (env : Env) (request : TrackRequest)
    : M TrackResponse :=
  try_catch
    (validatedData <- trackVisitorSchema_parse (body request) ;;
     link <- getLinkById (linkId validatedData) ;;
     match link with
     | None => ret (TrackError 404 "Link not found or inactive")
     | Some link =>
         if negb (TrackingLink.is_active link)
         then ret (TrackError 404 "Link not found or inactive")
         else if has_expired link (date_now env)
         then ret (TrackError 410 "Link has expired")
         else
           let ip := getClientIP (headers request) in
           let userAgent := or_str (user_agent_header (headers request)) "" in
           let deviceInfo := parseUserAgent userAgent in
           locationData <- determine_location env ip validatedData ;;
           visitor <- recordVisitor (uuidv4 env) (db_now env)
                        (linkId validatedData)
                        (mkVisitorData ip
                           (loc_latitude locationData)
                           (loc_longitude locationData)
                           (loc_country locationData)
                           (loc_city locationData)
                           (Some (dev_device deviceInfo))
                           (Some (dev_browser deviceInfo))
                           (Some userAgent)) ;;
           incrementClickCount (linkId validatedData) ;;;
           ret (TrackOk (view_of visitor))
     end)
    (fun error =>
       match error with
       | ZodError => ret (TrackError 400 "Validation failed")
       | _ => ret (TrackError 500 "Internal server error")
       end).

(* ================================================================== *)
(** * [POST /api/links] *)

(** The JSON body of a creation request; [expires_at] is the instant its
    ISO date-time text denotes. *)
Record CreateLinkBody : Type := mkCreateLinkBody {
  cl_alias : string;
  cl_original_url : string;
  cl_description : option string;
  cl_expires_at : option Z
}.

(** The answer: [{ success: true, link, trackingUrl }] with status 201, or
    [{ error }] with the given status. *)
Inductive LinkResponse : Type :=
| LinkCreated (link : TrackingLink) (trackingUrl : string)
| LinkError (status : Z) (error : string).

Section LinksRoute.

(** The URL test of the schema library ([z.string().url()]). *)
Variable isUrl : string -> bool.

(** What [createLinkSchema] accepts. *)
Definition createLinkSchema (b : CreateLinkBody) : bool :=
  ((1 <=? String.length (cl_alias b))%nat
   && (String.length (cl_alias b) <=? 50)%nat)
  && isUrl (cl_original_url b).

Definition createLinkSchema_parse (b : CreateLinkBody) : M CreateLinkBody :=
  if createLinkSchema b then ret b else throw ZodError.

Definition links_POST (env : Env) (b : CreateLinkBody) : M LinkResponse :=
  try_catch
    (validatedData <- createLinkSchema_parse b ;;
     existingLink <- getLinkByAlias (cl_alias validatedData) ;;
     match existingLink with
     | Some _ =>
         ret (LinkError 400
                "Alias already exists. Please choose a different one.")
     | None =>
         link <- createLink (uuidv4 env) (db_now env)
                   (cl_alias validatedData)
                   (cl_original_url validatedData)
                   (cl_description validatedData)
                   (cl_expires_at validatedData) ;;
         ret (LinkCreated link
                ("http://localhost:3000/link/" ++ TrackingLink.alias link))
     end)
    (fun error =>
       match error with
       | ZodError => ret (LinkError 400 "Validation failed")
       | _ => ret (LinkError 500 "Internal server error")
       end).

End LinksRoute.

(* ================================================================== *)
(** * [GET /api/analytics] *)

(** The query string: what [searchParams.get] returns for [linkId] and
    [days]. *)
Record AnalyticsQuery : Type := mkQuery {
  q_linkId : option string;
  q_days : option string
}.

(** The [overview] and [recentActivity] parts of the answer.  The
    timeline, demographics and geography parts are folds over [visitors]
    and [stats.countries] that neither throw nor feed these two; they are
    left out. *)
Record Analytics : Type := mkAnalytics {
  ov_totalClicks : Z;
  ov_uniqueVisitors : Z;
  ov_countries : Z;
  ov_avgClicksPerDay : number;
  recentActivity : list Visitor
}.

Inductive AnalyticsResponse : Type :=
| AnalyticsOk (analytics : Analytics)
| AnalyticsError (status : Z) (error : string).

Definition ms_per_day : Z := 86400000.

(** [startDate.setDate(endDate.getDate() - days)] for two dates taken at
    the same instant [now], on a server whose local time is UTC: the date
    moves back by the integer part of [days] whole days; a [NaN] makes it
    invalid. *)
Definition start_date (now : Z) (days : number) : option Z :=
  match days with
  | Num q => make_date (now - Z.quot (Qnum q) (Z.pos (Qden q)) * ms_per_day)
  | NegZero => make_date now
  | _ => None
  end.

Definition analytics_GET (env : Env) (query : AnalyticsQuery)
    : M AnalyticsResponse :=
  try_catch
    (let linkId := q_linkId query in
     let days := parseInt (or_str (q_days query) "30") in
     stats <- getClickStats (or_null_str linkId) ;;
     let endDate := make_date (date_now env) in
     let startDate := start_date (date_now env) days in
     visitors <- (if truthy_ostr linkId
                  then getVisitorsByLinkId (or_str linkId "")
                  else getVisitorsByDateRange startDate endDate) ;;
     ret (AnalyticsOk
            (mkAnalytics
               (totalClicks stats)
               (uniqueVisitors stats)
               (Z.of_nat (length (countries stats)))
               (Math_round
                  (num_div (Num (inject_Z (totalClicks stats))) days))
               (firstn 20 (recentVisits stats)))))
    (fun error => ret (AnalyticsError 500 "Internal server error")).

(* ================================================================== *)
(** * Sample data used by the examples *)

Definition empty_world : World := mkWorld (mkDb [] []) [].

(** A network that answers every lookup with a fixed place. *)
Definition sample_fetch (url : string) : FetchOutcome :=
  Responded (mkResponse 200
    (Some (JObject (Some (374 # 10)) (Some (- (1220 # 10))%Q)
                   (Some "United States") (Some "Mountain View")))).

Definition sample_env : Env := mkEnv sample_fetch 1000 "v-1" 1001.

Definition public_headers : Headers :=
  mkHeaders (Some "8.8.8.8, 10.0.0.1") None None
            (Some "Mozilla/5.0 (X11; Linux x86_64) Chrome/120.0 Safari/537.36").

Definition promo_link : TrackingLink :=
  TrackingLink.mk "L1" "promo" "https://example.com/landing" None 10 None 0
                  true.

Definition promo_world : World := mkWorld (mkDb [promo_link] []) [].

(* ================================================================== *)
(** * Definitions used by the statements

    Closed forms of what the handlers compute, the predicates of the
    statements, and the data of the examples. *)

(** ** The geolocation resolver *)

(** The address the resolver asks ipapi.co about. *)
Definition lookup_url (ip : string) : string :=
  "https://ipapi.co/" ++ ip ++ "/json/".

(** A lookup that ends in the [catch] block: the promise rejects, the
    status is not a success, the body is not JSON, or it is [null]. *)
Definition lookup_failed (o : FetchOutcome) : bool :=
  match o with
  | Rejected => true
  | Responded r =>
      negb (response_ok r)
      || match resp_body r with
         | None | Some JNull => true
         | Some _ => false
         end
  end.

(** The location a successful answer is turned into. *)
Definition parsed_location (ip : string) (o : FetchOutcome) : LocationData :=
  match o with
  | Responded (mkResponse _ (Some (JObject lat lon country_name city))) =>
      mkLocation (or_null_num lat) (or_null_num lon)
                 (or_null_str country_name) (or_null_str city) (Some ip)
  | _ => mkLocation None None None None (Some ip)
  end.

(** The value of [getLocationFromIP], as a function of the address and of
    what the network answers. *)
Definition resolved (env : Env) (ip : string) : LocationData :=
  if is_local_ip ip then local_location ip
  else if lookup_failed (fetch env (lookup_url ip)) then unknown_location ip
  else parsed_location ip (fetch env (lookup_url ip)).

(** The external calls of [getLocationFromIP]. *)
Definition lookups (ip : string) : list string :=
  if is_local_ip ip then [] else [lookup_url ip].

Definition log_more (w : World) (urls : list string) : World :=
  mkWorld (db w) (fetch_log w ++ urls).

(** ** The tracking pipeline, step by step *)

(** The location the handler settles on. *)
Definition located (env : Env) (ip : string) (b : TrackBody) : LocationData :=
  if needs_ip_location b then
    mkLocation (or_num (latitude b) (loc_latitude (resolved env ip)))
               (or_num (longitude b) (loc_longitude (resolved env ip)))
               (loc_country (resolved env ip))
               (loc_city (resolved env ip))
               None
  else mkLocation (latitude b) (longitude b) None None None.

(** The external calls of the handler. *)
Definition track_lookups (ip : string) (b : TrackBody) : list string :=
  if needs_ip_location b then lookups ip else [].

(** The argument that the handler passes to [recordVisitor]. *)
Definition tracked_data (env : Env) (request : TrackRequest) : VisitorData :=
  let ip := getClientIP (headers request) in
  let userAgent := or_str (user_agent_header (headers request)) "" in
  let deviceInfo := parseUserAgent userAgent in
  let locationData := located env ip (body request) in
  mkVisitorData ip
    (loc_latitude locationData) (loc_longitude locationData)
    (loc_country locationData) (loc_city locationData)
    (Some (dev_device deviceInfo)) (Some (dev_browser deviceInfo))
    (Some userAgent).

(** The [links] table after [incrementClickCount linkId]. *)
Definition bumped (k : string) (ls : list TrackingLink) : list TrackingLink :=
  map (fun l => if String.eqb (TrackingLink.id l) k then bump l else l) ls.

Definition id_taken (k : string) (vs : list Visitor) : bool :=
  existsb (fun v => String.eqb (Visitor.id v) k) vs.

Definition find_link (k : string) (ls : list TrackingLink)
    : option TrackingLink :=
  find (fun l => String.eqb (TrackingLink.id l) k) ls.


(** A request from a public address with no device coordinates. *)
Definition plain_request (k : string) : TrackRequest :=
  mkTrackRequest public_headers (mkTrackBody k None None None (Some false)).

(** What it takes for a request to get past the link checks and the
    insertion: a valid body, a link that is active and not expired, and an
    identifier no visit holds yet. *)
Definition live (env : Env) (request : TrackRequest) (w : World)
    (link : TrackingLink) : Prop :=
  trackVisitorSchema (body request) = true
  /\ find_link (linkId (body request)) (links (db w)) = Some link
  /\ TrackingLink.is_active link = true
  /\ has_expired link (date_now env) = false
  /\ id_taken (uuidv4 env) (visitors (db w)) = false.

(** A link that was deactivated, and one whose time has passed. *)
Definition retired_link : TrackingLink :=
  TrackingLink.mk "L2" "old" "https://example.com/old" None 10 None 7 false.

Definition lapsed_link : TrackingLink :=
  TrackingLink.mk "L3" "sale" "https://example.com/sale" None 10 (Some 500) 3
                  true.

Definition mixed_world : World :=
  mkWorld (mkDb [promo_link; retired_link; lapsed_link] []) [].

(** ** What a recorded visit changes *)

(** Two link rows that agree on everything but the click counter. *)
Definition same_but_clicks (l l' : TrackingLink) : Prop :=
  TrackingLink.id l' = TrackingLink.id l
  /\ TrackingLink.alias l' = TrackingLink.alias l
  /\ TrackingLink.original_url l' = TrackingLink.original_url l
  /\ TrackingLink.description l' = TrackingLink.description l
  /\ TrackingLink.created_at l' = TrackingLink.created_at l
  /\ TrackingLink.expires_at l' = TrackingLink.expires_at l
  /\ TrackingLink.is_active l' = TrackingLink.is_active l.

(** How [incrementClickCount k] relates a row before and after. *)
Definition counted (k : string) (l l' : TrackingLink) : Prop :=
  same_but_clicks l l'
  /\ TrackingLink.click_count l' =
     TrackingLink.click_count l
     + (if String.eqb (TrackingLink.id l) k then 1 else 0).

(** ** Where the location of a visit comes from *)

(** A device coordinate that was supplied and is zero. *)
Definition zero_coordinate (o : option Q) : Prop :=
  exists q, o = Some q /\ (q == 0)%Q.

(** An accurate device fix on the equator. *)
Definition equator_request : TrackRequest :=
  mkTrackRequest public_headers
    (mkTrackBody "L1" (Some 0%Q) (Some 10%Q) (Some 50%Q) (Some true)).

(** ** Creating links *)

(** The active row, if any, that [getLinkByAlias] returns. *)
Definition find_active (a : string) (ls : list TrackingLink)
    : option TrackingLink :=
  find (fun l => String.eqb (TrackingLink.alias l) a
                 && TrackingLink.is_active l) ls.

(** What makes the [INSERT] of [createLink] throw. *)
Definition insert_clash (k a : string) (ls : list TrackingLink) : bool :=
  existsb (fun l => String.eqb (TrackingLink.id l) k) ls
  || existsb (fun l => String.eqb (TrackingLink.alias l) a) ls.

Definition promo_body : CreateLinkBody :=
  mkCreateLinkBody "promo" "https://example.com/landing" None None.

Definition first_env : Env := mkEnv sample_fetch 1000 "L1" 1001.
Definition second_env : Env := mkEnv sample_fetch 2000 "L2" 2001.

(** ** The analytics figures *)

(** What [getClickStats] throws: the parser's error when a link
    identifier is given, the driver's when none is. *)
Definition stats_failure (linkId : option string) : exn :=
  if truthy_ostr linkId then SqliteError else RangeError.

(** The world after one visit to the promo link. *)
Definition visited_world : World :=
  snd (track_POST sample_env (plain_request "L1") promo_world).

(** ** Recent activity *)

(** [u] is not older than [v]. *)
Definition newer_first (u v : Visitor) : Prop :=
  Visitor.visited_at v <= Visitor.visited_at u.

(** Twenty-one visits to the promo link, one per millisecond. *)
Definition nth_visit (n : nat) : Visitor :=
  Visitor.mk (String (ascii_of_nat (64 + n)) "") "L1" "8.8.8.8" None None
             None None (Some "Desktop") (Some "Chrome") None (Z.of_nat n).

Definition busy_world : World :=
  mkWorld (mkDb [promo_link] (map nth_visit (seq 1 21))) [].

(** ** Browser classification *)

(** The specification's table of rules: a test on the lower-cased user
    agent and the name it gives, in order. *)
Definition browser_rules : list ((string -> bool) * string) :=
  [ (fun ua => includes ua "chrome" && negb (includes ua "edg"), "Chrome");
    (fun ua => includes ua "firefox", "Firefox");
    (fun ua => includes ua "safari" && negb (includes ua "chrome"), "Safari");
    (fun ua => includes ua "edg", "Edge");
    (fun ua => includes ua "opera" || includes ua "opr", "Opera") ].

(** The first rule that matches wins. *)
Fixpoint first_match (rules : list ((string -> bool) * string)) (ua : string)
    (otherwise : string) : string :=
  match rules with
  | [] => otherwise
  | (test, name) :: rest =>
      if test ua then name else first_match rest ua otherwise
  end.

(* ================================================================== *)
(** * More of the code *)

(** ** [src/lib/utils/location.ts], continued *)

(** An argument of [isValidCoordinates].  Its signature says [number |
    undefined]; a coordinate read from a stored visit is [null] when the
    column is empty, so the three are kept apart here. *)
Inductive coordinate : Type :=
| Undefined
| Null
| Coordinate (q : Q).

(** The number that [>=] and [<=] give their operand: [null] is 0 and
    [undefined] is [NaN] ([None]). *)
Definition ToNumber (c : coordinate) : option Q :=
  match c with
  | Undefined => None
  | Null => Some 0%Q
  | Coordinate q => Some q
  end.

(** [a <= b] on numbers: false when either is [NaN]. *)
Definition number_le (a b : option Q) : bool :=
  match a, b with
  | Some x, Some y => Qle_bool x y
  | _, _ => false
  end.

Definition is_undefined (c : coordinate) : bool :=
  match c with Undefined => true | _ => false end.

Definition isValidCoordinates (lat lon : coordinate) : bool :=
  if is_undefined lat || is_undefined lon then false
  else number_le (Some (-90)%Q) (ToNumber lat)
       && number_le (ToNumber lat) (Some 90%Q)
       && number_le (Some (-180)%Q) (ToNumber lon)
       && number_le (ToNumber lon) (Some 180%Q).

(** A coordinate as a request body gives it (absent is [undefined]) and as
    a row of [visitors] gives it (absent is [null]). *)
Definition of_body (o : option Q) : coordinate :=
  match o with Some q => Coordinate q | None => Undefined end.

Definition of_row (o : option Q) : coordinate :=
  match o with Some q => Coordinate q | None => Null end.

Definition formatLocationString (country city : option string) : string :=
  if truthy_ostr country && truthy_ostr city
  then or_str city "" ++ ", " ++ or_str country ""
  else if truthy_ostr country then or_str country ""
  else if truthy_ostr city then or_str city ""
  else "Unknown Location".

(** ** [src/lib/utils/qrcode.ts] *)

(** [s.replace(/\/$/, '')]: a slash at the very end is removed. *)
Fixpoint strip_trailing_slash (s : string) : string :=
  match s with
  | EmptyString => EmptyString
  | String c EmptyString => if Ascii.eqb c "/"%char then EmptyString else s
  | String c s' => String c (strip_trailing_slash s')
  end.

Definition generateTrackingUrl (baseUrl alias : string) : string :=
  let cleanBaseUrl := strip_trailing_slash baseUrl in
  cleanBaseUrl ++ "/link/" ++ alias.

(** ** [src/lib/database.ts], continued *)

(** [ORDER BY created_at DESC], with the convention of
    [insert_desc] for rows created at the same instant. *)
Fixpoint insert_link_desc (l : TrackingLink) (ls : list TrackingLink)
    : list TrackingLink :=
  match ls with
  | [] => [l]
  | x :: ls' =>
      if TrackingLink.created_at x <? TrackingLink.created_at l then l :: ls
      else x :: insert_link_desc l ls'
  end.

Definition order_by_created_at_desc (ls : list TrackingLink)
    : list TrackingLink :=
  fold_right insert_link_desc [] ls.

(** [SELECT * FROM links ORDER BY created_at DESC]. *)
Definition getAllLinks : M (list TrackingLink) :=
  d <- get_db ;;
  ret (order_by_created_at_desc (links d)).

(** [SELECT * FROM visitors ORDER BY visited_at DESC]. *)
Definition getAllVisitors : M (list Visitor) :=
  d <- get_db ;;
  ret (order_by_visited_at_desc (visitors d)).

(** ** [GET /api/links] *)

(** [array.map(f)] for a callback that runs in the monad. *)
Fixpoint mapM {A B : Type} (f : A -> M B) (l : list A) : M (list B) :=
  match l with
  | [] => ret []
  | a :: l' =>
      b <- f a ;;
      bs <- mapM f l' ;;
      ret (b :: bs)
  end.

(** A link with its tracking URL and its two counts:
    [{ ...link, trackingUrl, totalClicks, uniqueVisitors }]. *)
Record LinkWithStats : Type := mkLinkWithStats {
  lws_link : TrackingLink;
  lws_trackingUrl : string;
  lws_totalClicks : Z;
  lws_uniqueVisitors : Z
}.

(** The answer: [{ success: true, link }] or [{ success: true, links }]
    with status 200, or [{ error }] with the given status. *)
Inductive LinksGetResponse : Type :=
| LinkFound (link : LinkWithStats)
| LinkList (links : list LinkWithStats)
| LinksGetError (status : Z) (error : string).

Definition with_stats (link : TrackingLink) : M LinkWithStats :=
  stats <- getClickStats (Some (TrackingLink.id link)) ;;
  ret (mkLinkWithStats link
         ("http://localhost:3000/link/" ++ TrackingLink.alias link)
         (totalClicks stats) (uniqueVisitors stats)).

(** The handler; [alias] is what [searchParams.get('alias')] returns, and
    the sweep reads the clock inside the database method. *)
Definition links_GET (env : Env) (alias : option string)
    : M LinksGetResponse :=
  try_catch
    (cleanupExpiredLinks (db_now env) ;;;
     if truthy_ostr alias then
       link <- getLinkByAlias (or_str alias "") ;;
       match link with
       | None => ret (LinksGetError 404 "Link not found")
       | Some link =>
           entry <- with_stats link ;;
           ret (LinkFound entry)
       end
     else
       links <- getAllLinks ;;
       linksWithStats <- mapM with_stats links ;;
       ret (LinkList linksWithStats))
    (fun error => ret (LinksGetError 500 "Internal server error")).

(** ** [GET /api/analytics]: the points of the map *)

(** An entry of [geography.visitors]. *)
Record MapPoint : Type := mkMapPoint {
  mp_id : string;
  mp_lat : Q;
  mp_lng : Q;
  mp_country : option string;
  mp_city : option string;
  mp_timestamp : Z;
  mp_device : option string;
  mp_browser : option string
}.

(** [visitors.filter(v => v.latitude && v.longitude).map(v => ...)]. *)
Definition visitorCoordinates (visitors : list Visitor) : list MapPoint :=
  flat_map
    (fun v =>
       match Visitor.latitude v, Visitor.longitude v with
       | Some la, Some lo =>
           if truthy_num la && truthy_num lo
           then [mkMapPoint (Visitor.id v) la lo (Visitor.country v)
                            (Visitor.city v) (Visitor.visited_at v)
                            (Visitor.device v) (Visitor.browser v)]
           else []
       | _, _ => []
       end)
    visitors.

(** ** Stores that the application can reach

    The stores obtained from the empty one through the route handlers and
    [deleteLink] ([updateLink], which no handler calls, is not among the
    steps). *)
Inductive reachable : World -> Prop :=
| reach_empty : reachable empty_world
| reach_track env request w :
    reachable w -> reachable (snd (track_POST env request w))
| reach_create isUrl env b w :
    reachable w -> reachable (snd (links_POST isUrl env b w))
| reach_list env alias w :
    reachable w -> reachable (snd (links_GET env alias w))
| reach_analytics env query w :
    reachable w -> reachable (snd (analytics_GET env query w))
| reach_delete k w :
    reachable w -> reachable (snd (deleteLink k w)).

(** The constraints of the schema: identifiers are unique in both tables,
    aliases are unique, and every visit names a link. *)
Definition well_formed (d : Db) : Prop :=
  NoDup (map TrackingLink.id (links d))
  /\ NoDup (map TrackingLink.alias (links d))
  /\ NoDup (map Visitor.id (visitors d))
  /\ Forall (fun v => In (Visitor.link_id v) (map TrackingLink.id (links d)))
            (visitors d).

(** The number of visits recorded for a link. *)
Definition visits_of (k : string) (vs : list Visitor) : nat :=
  length (filter (fun v => String.eqb (Visitor.link_id v) k) vs).

(** Every click counter is the number of visits of its link. *)
Definition counters_match (d : Db) : Prop :=
  Forall (fun l => TrackingLink.click_count l
                   = Z.of_nat (visits_of (TrackingLink.id l) (visitors d)))
         (links d).

(** A stored number that is not zero, a stored text that is not empty. *)
Definition stored_num (o : option Q) : Prop :=
  match o with Some q => ~ (q == 0)%Q | None => True end.

Definition stored_str (o : option string) : Prop :=
  match o with Some s => s <> "" | None => True end.

(** A visit row none of whose optional columns holds a falsy value. *)
Definition clean_visit (v : Visitor) : Prop :=
  stored_num (Visitor.latitude v) /\ stored_num (Visitor.longitude v)
  /\ stored_str (Visitor.country v) /\ stored_str (Visitor.city v)
  /\ stored_str (Visitor.device v) /\ stored_str (Visitor.browser v)
  /\ stored_str (Visitor.user_agent v).

(** The three invariants together. *)
Definition invariant (d : Db) : Prop :=
  well_formed d /\ counters_match d /\ Forall clean_visit (visitors d).

(** The rows of [links] after a sweep at [now]. *)
Definition swept (now : Z) (ls : list TrackingLink) : list TrackingLink :=
  map (fun l => if has_expired l now then deactivate l else l) ls.

(** The rows of [links] after [deleteLink k]. *)
Definition retired (k : string) (ls : list TrackingLink) : list TrackingLink :=
  map (fun l => if String.eqb (TrackingLink.id l) k then deactivate l else l)
      ls.

(** Whether a character occurs in a string. *)
Fixpoint has_char (c : ascii) (s : string) : bool :=
  match s with
  | EmptyString => false
  | String c' s' => Ascii.eqb c' c || has_char c s'
  end.

(** The first and the last character of a string. *)
Definition first_char (s : string) : option ascii :=
  match s with String c _ => Some c | EmptyString => None end.

Fixpoint last_char (s : string) : option ascii :=
  match s with
  | EmptyString => None
  | String c EmptyString => Some c
  | String _ s' => last_char s'
  end.

(** Headers that carry no client address. *)
Definition no_address (h : Headers) : Prop :=
  truthy_ostr (x_forwarded_for h) = false
  /\ truthy_ostr (x_real_ip h) = false
  /\ truthy_ostr (remote_addr h) = false.

Definition anonymous_headers : Headers :=
  mkHeaders None (Some "") None (Some "curl/8.0").

(** The environment and the world of the examples below: the promo link
    is created through the handler, then visited once. *)
Definition creating_env : Env := mkEnv sample_fetch 0 "L1" 10.

Definition always_url (s : string) : bool := true.

(** A link whose expiry is already behind when it is created. *)
Definition stale_body : CreateLinkBody :=
  mkCreateLinkBody "sale" "https://example.com/sale" (Some "") (Some 500).

(** Two rows that agree on everything but the active flag. *)
Definition same_but_active (l l' : TrackingLink) : Prop :=
  TrackingLink.id l' = TrackingLink.id l
  /\ TrackingLink.alias l' = TrackingLink.alias l
  /\ TrackingLink.original_url l' = TrackingLink.original_url l
  /\ TrackingLink.description l' = TrackingLink.description l
  /\ TrackingLink.created_at l' = TrackingLink.created_at l
  /\ TrackingLink.expires_at l' = TrackingLink.expires_at l
  /\ TrackingLink.click_count l' = TrackingLink.click_count l.

(** A visit row with both coordinates stored. *)
Definition has_fix (v : Visitor) : bool :=
  match Visitor.latitude v, Visitor.longitude v with
  | Some _, Some _ => true
  | _, _ => false
  end.

(** A live request without any address header or device coordinates. *)
Definition anonymous_request : TrackRequest :=
  mkTrackRequest anonymous_headers (mkTrackBody "L1" None None None None).

Definition proxied_headers : Headers :=
  mkHeaders (Some "  203.0.113.7 , 10.0.0.1") (Some "198.51.100.2") None None.

(** ** [/api/qrcode]

    The handlers never touch the store; the QR code library is a
    parameter: [toDataURL] and [toBuffer] give the image for a text, a
    width and a margin, or [None] when the library throws.  The error
    correction level and the colours are constants of the code. *)

(** The body of [POST /api/qrcode], with the types the schema asks for;
    [None] is a property that is not there. *)
Record QrBody : Type := mkQrBody {
  qr_url : string;
  qr_format : option string;
  qr_size : option number;
  qr_margin : option number
}.

(** The query of [GET /api/qrcode]: what [searchParams.get] returns. *)
Record QrQuery : Type := mkQrQuery {
  qq_url : option string;
  qq_format : option string;
  qq_size : option string;
  qq_margin : option string
}.

(** What [qrCodeSchema.parse] returns. *)
Record QrData : Type := mkQrData {
  qd_url : string;
  qd_format : string;
  qd_size : number;
  qd_margin : number
}.

(** The answer: [{ success: true, qrCode, format: 'dataurl' }], the PNG
    image, or [{ error }] with the given status. *)
Inductive QrResponse : Type :=
| QrDataUrl (qrCode : string)
| QrImage (buffer : string)
| QrError (status : Z) (error : string).

(** What the handlers can throw. *)
Inductive QrExn : Type :=
| QrZodError
| QrFailure (message : string).

(** [z.number().min(lo).max(hi)]: a number that is not [NaN], between the
    bounds. *)
Definition number_between (lo hi : Q) (n : number) : bool :=
  match n with
  | Num q => Qle_bool lo q && Qle_bool q hi
  | NegZero => Qle_bool lo 0 && Qle_bool 0 hi
  | _ => false
  end.

(** [z.enum(['png', 'svg', 'dataurl'])]. *)
Definition is_format (s : string) : bool :=
  String.eqb s "png" || String.eqb s "svg" || String.eqb s "dataurl".

Section QrRoute.

Variable isUrl : string -> bool.
Variable toDataURL : string -> number -> number -> option string.
Variable toBuffer : string -> number -> number -> option string.

(** [qrCodeSchema.parse], with the defaults of the schema. *)
Definition qrCodeSchema_parse (url : string) (format : option string)
    (size margin : option number) : QrExn + QrData :=
  let format := match format with Some f => f | None => "png" end in
  let size := match size with Some n => n | None => Num 256 end in
  let margin := match margin with Some n => n | None => Num 2 end in
  if isUrl url && is_format format
     && number_between 100 1000 size && number_between 0 10 margin
  then inr (mkQrData url format size margin)
  else inl QrZodError.

(** [generateQRCode] of [qrcode.ts]. *)
Definition generateQRCode (text : string) (width margin : number)
    : QrExn + string :=
  match toDataURL text width margin with
  | Some dataUrl => inr dataUrl
  | None => inl (QrFailure "Failed to generate QR code")
  end.

(** [generateQRCodeBuffer] of [qrcode.ts]. *)
Definition generateQRCodeBuffer (text : string) (width margin : number)
    : QrExn + string :=
  match toBuffer text width margin with
  | Some buffer => inr buffer
  | None => inl (QrFailure "Failed to generate QR code buffer")
  end.

Definition qrcode_POST (b : QrBody) : QrResponse :=
  match qrCodeSchema_parse (qr_url b) (qr_format b) (qr_size b) (qr_margin b)
  with
  | inl _ => QrError 400 "Validation failed"
  | inr validatedData =>
      if String.eqb (qd_format validatedData) "dataurl" then
        match generateQRCode (qd_url validatedData) (qd_size validatedData)
                             (qd_margin validatedData) with
        | inr dataUrl => QrDataUrl dataUrl
        | inl _ => QrError 500 "Failed to generate QR code"
        end
      else if String.eqb (qd_format validatedData) "png" then
        match generateQRCodeBuffer (qd_url validatedData)
                (qd_size validatedData) (qd_margin validatedData) with
        | inr buffer => QrImage buffer
        | inl _ => QrError 500 "Failed to generate QR code"
        end
      else QrError 400 "SVG format not supported in this endpoint"
  end.

Definition qrcode_GET (q : QrQuery) : QrResponse :=
  let url := qq_url q in
  let format := or_str (qq_format q) "png" in
  let size := parseInt (or_str (qq_size q) "256") in
  let margin := parseInt (or_str (qq_margin q) "2") in
  if negb (truthy_ostr url) then QrError 400 "URL parameter is required"
  else
    match qrCodeSchema_parse (or_str url "") (Some format) (Some size)
                             (Some margin) with
    | inl _ => QrError 500 "Failed to generate QR code"
    | inr validatedData =>
        if String.eqb format "dataurl" then
          match generateQRCode (or_str url "") (qd_size validatedData)
                               (qd_margin validatedData) with
          | inr dataUrl => QrDataUrl dataUrl
          | inl _ => QrError 500 "Failed to generate QR code"
          end
        else if String.eqb format "png" then
          match generateQRCodeBuffer (or_str url "") (qd_size validatedData)
                  (qd_margin validatedData) with
          | inr buffer => QrImage buffer
          | inl _ => QrError 500 "Failed to generate QR code"
          end
        else QrError 400 "Unsupported format"
    end.

End QrRoute.

(** A library that draws nothing but names what it was asked for. *)
Definition sample_toDataURL (text : string) (width margin : number)
    : option string :=
  Some ("data:image/png;base64," ++ text)%string.

Definition sample_toBuffer (text : string) (width margin : number)
    : option string :=
  Some text.

(** ** [GET /api/analytics]: the hourly distribution *)

Definition ms_per_hour : Z := 3600000.

(** [new Date(visited_at).getHours()], on a server whose local time is
    UTC. *)
Definition getHours (t : Z) : Z := (t / ms_per_hour) mod 24.

(** [acc[hour] = (acc[hour] || 0) + 1] on an object whose keys are
    integers; such keys are enumerated in ascending order, and the object
    is kept as the list of its entries in that order. *)
Fixpoint count_hour (hour : Z) (acc : list (Z * Z)) : list (Z * Z) :=
  match acc with
  | [] => [(hour, 1)]
  | (k, n) :: rest =>
      if hour <? k then (hour, 1) :: acc
      else if hour =? k then (k, (if n =? 0 then 0 else n) + 1) :: rest
      else (k, n) :: count_hour hour rest
  end.

(** [visitors.reduce((acc, visitor) => ..., {})]. *)
Definition hourlyStats (visitors : list Visitor) : list (Z * Z) :=
  fold_left (fun acc visitor => count_hour (getHours (Visitor.visited_at visitor)) acc)
            visitors [].

(** The count that a distribution holds for a key, zero when the key is
    not there. *)
Fixpoint bucket (k : Z) (acc : list (Z * Z)) : Z :=
  match acc with
  | [] => 0
  | (k', n) :: rest => (if k' =? k then n else 0) + bucket k rest
  end.

(** The number of visits made in an hour of the day. *)
Definition visits_in_hour (h : Z) (vs : list Visitor) : Z :=
  Z.of_nat (length (filter (fun v => getHours (Visitor.visited_at v) =? h) vs)).

(** Keys in strictly ascending order. *)
Definition ascending_keys (acc : list (Z * Z)) : Prop :=
  StronglySorted (fun a b => fst a < fst b) acc.

(* ================================================================== *)
(** * The geolocation resolver *)

Lemma log_more_nil w : log_more w [] = w.
Proof. destruct w; unfold log_more; simpl; now rewrite app_nil_r. Qed.

(** The resolver always returns, and what it returns and fetches is
    determined by [resolved] and [lookups]. *)
Lemma getLocationFromIP_eq env ip w :
  getLocationFromIP env ip w = (inr (resolved env ip), log_more w (lookups ip)).
Proof.
  unfold getLocationFromIP, resolved, lookups, try_catch.
  destruct (is_local_ip ip) eqn:Hlocal.
  - unfold ret. now rewrite log_more_nil.
  - fold (lookup_url ip). generalize (lookup_url ip) as url; intros url.
    unfold bind, do_fetch, lookup_failed, parsed_location, log_more,
      response_json, location_of_json, throw, ret.
    destruct (fetch env url) as [|[status data]]; [reflexivity|].
    destruct (response_ok _); cbn [negb orb resp_body];
      [|reflexivity].
    destruct data as [[| |]|]; reflexivity.
Qed.

(** C7. For a loopback or private-network address (127.0.0.1, ::1, or one
    that starts with 192.168., 10. or 172.) the resolver returns the fixed
    local sentinel (zero coordinates, country Local, city Local
    Development) whatever the network would answer, and leaves the world,
    hence the log of external calls, as it found it. *)
Theorem local_address_short_circuit (env : Env) (ip : string) (w : World) :
  ip = "127.0.0.1" \/ ip = "::1" \/ startsWith ip "192.168." = true
  \/ startsWith ip "10." = true \/ startsWith ip "172." = true ->
  getLocationFromIP env ip w = (inr (local_location ip), w)
  /\ loc_latitude (local_location ip) = Some 0%Q
  /\ loc_longitude (local_location ip) = Some 0%Q
  /\ loc_country (local_location ip) = Some "Local"
  /\ loc_city (local_location ip) = Some "Local Development".
Proof.
  intros Hip.
  assert (Hlocal : is_local_ip ip = true).
  { unfold is_local_ip.
    destruct Hip as [-> | [-> | [H | [H | H]]]]; try reflexivity;
      rewrite H; now rewrite ?orb_true_r. }
  repeat split.
  rewrite getLocationFromIP_eq.
  unfold resolved, lookups. rewrite Hlocal. now rewrite log_more_nil.
Qed.

Lemma local_address_short_circuit_witness :
  getLocationFromIP sample_env "192.168.1.7" promo_world
  = (inr (local_location "192.168.1.7"), promo_world).
Proof.
  apply (local_address_short_circuit sample_env "192.168.1.7" promo_world).
  right; right; left; reflexivity.
Defined.

(* ================================================================== *)
(** * The tracking pipeline, step by step *)

Lemma determine_location_eq env ip b w :
  determine_location env ip b w
  = (inr (located env ip b), log_more w (track_lookups ip b)).
Proof.
  unfold determine_location, located, track_lookups.
  destruct (needs_ip_location b).
  - unfold bind. rewrite getLocationFromIP_eq. reflexivity.
  - unfold ret. now rewrite log_more_nil.
Qed.

Lemma find_link_exists k ls l :
  find_link k ls = Some l ->
  existsb (fun l' => String.eqb (TrackingLink.id l') k) ls = true.
Proof.
  unfold find_link. intros H. apply find_some in H.
  apply existsb_exists. exists l. exact H.
Qed.

(** Every path of the handler, in one equation. *)
Lemma track_POST_eq env request w :
  track_POST env request w =
  let b := body request in
  if negb (trackVisitorSchema b)
  then (inr (TrackError 400 "Validation failed"), w)
  else
    match find_link (linkId b) (links (db w)) with
    | None => (inr (TrackError 404 "Link not found or inactive"), w)
    | Some link =>
        if negb (TrackingLink.is_active link)
        then (inr (TrackError 404 "Link not found or inactive"), w)
        else if has_expired link (date_now env)
        then (inr (TrackError 410 "Link has expired"), w)
        else
          let w1 := log_more w (track_lookups (getClientIP (headers request)) b) in
          if id_taken (uuidv4 env) (visitors (db w))
          then (inr (TrackError 500 "Internal server error"), w1)
          else
            (inr (TrackOk (view_of (visitor_object (uuidv4 env) (db_now env)
                                      (linkId b) (tracked_data env request)))),
             mkWorld
               (mkDb (bumped (linkId b) (links (db w)))
                     (visitors (db w)
                      ++ [visitor_row (uuidv4 env) (db_now env) (linkId b)
                                      (tracked_data env request)]))
               (fetch_log w1))
    end.
Proof.
  unfold track_POST, try_catch.
  unfold bind at 1. unfold trackVisitorSchema_parse.
  destruct (trackVisitorSchema (body request)); cbn [negb]; [|reflexivity].
  unfold ret at 1. cbv zeta.
  unfold bind at 1. unfold getLinkById. unfold bind at 1.
  unfold get_db, ret at 1. fold (find_link (linkId (body request)) (links (db w))).
  destruct (find_link _ _) as [link|] eqn:Hfind; [|reflexivity].
  destruct (TrackingLink.is_active link); cbn [negb]; [|reflexivity].
  destruct (has_expired link (date_now env)); [reflexivity|].
  unfold bind at 1. rewrite determine_location_eq.
  unfold bind at 1. unfold recordVisitor. unfold bind at 1.
  unfold insert_visitor. unfold bind at 1. unfold get_db.
  cbn [db log_more visitors links Visitor.id Visitor.link_id visitor_row].
  fold (id_taken (uuidv4 env) (visitors (db w))).
  rewrite (find_link_exists _ _ _ Hfind). cbn [negb]. rewrite orb_false_r.
  fold (tracked_data env request).
  destruct (id_taken _ _); [reflexivity|].
  reflexivity.
Qed.

(** On a live link the handler records the visit and counts it. *)
Lemma track_POST_live env request w link :
  live env request w link ->
  track_POST env request w =
  (inr (TrackOk (view_of (visitor_object (uuidv4 env) (db_now env)
                            (linkId (body request))
                            (tracked_data env request)))),
   mkWorld
     (mkDb (bumped (linkId (body request)) (links (db w)))
           (visitors (db w)
            ++ [visitor_row (uuidv4 env) (db_now env) (linkId (body request))
                            (tracked_data env request)]))
     (fetch_log w
      ++ track_lookups (getClientIP (headers request)) (body request))).
Proof.
  intros (Hvalid & Hfind & Hactive & Hfresh & Hid).
  rewrite track_POST_eq. cbv zeta.
  rewrite Hvalid, Hfind, Hactive, Hfresh, Hid. reflexivity.
Qed.




(** C3. A tracking request against a link that is absent, deactivated or
    past its expiration timestamp is answered with an error and leaves the
    world as it was: no visit row is inserted and no click counter moves.
    For a body that passes the schema the status is 404 (not found) when
    the link is absent or deactivated, and 410 (expired) when the link is
    active and its expiration timestamp is before the current time. *)
Theorem track_dead_link_rejected (env : Env) (request : TrackRequest)
    (w : World) :
  let found := find_link (linkId (body request)) (links (db w)) in
  (found = None
   \/ exists link, found = Some link
        /\ (TrackingLink.is_active link = false
            \/ exists e, TrackingLink.expires_at link = Some e
                 /\ e < date_now env)) ->
  exists status error,
    track_POST env request w = (inr (TrackError status error), w)
    /\ (trackVisitorSchema (body request) = true ->
        (found = None
         \/ exists link, found = Some link
              /\ TrackingLink.is_active link = false) ->
        status = 404 /\ error = "Link not found or inactive")
    /\ (trackVisitorSchema (body request) = true ->
        (exists link e, found = Some link
           /\ TrackingLink.is_active link = true
           /\ TrackingLink.expires_at link = Some e /\ e < date_now env) ->
        status = 410 /\ error = "Link has expired").
Proof.
  intros found Hdead.
  rewrite track_POST_eq. cbv zeta.
  destruct (trackVisitorSchema (body request)); cbn [negb].
  2:{ exists 400, "Validation failed".
      split; [reflexivity|]. split; discriminate. }
  fold found.
  destruct found as [link|] eqn:Hfound.
  - destruct (TrackingLink.is_active link) eqn:Hactive; cbn [negb].
    + assert (Hexp : has_expired link (date_now env) = true).
      { destruct Hdead as [Hnone | (l & Hl & [Hinactive | (e & He & Hlt)])];
          [discriminate | injection Hl as <- ..].
        - congruence.
        - unfold has_expired. rewrite He. now apply Z.ltb_lt. }
      rewrite Hexp. exists 410, "Link has expired".
      split; [reflexivity|]. split.
      * intros _ [Hnone | (l & Hl & Hinactive)]; [discriminate|].
        injection Hl as <-. congruence.
      * intros _ _. split; reflexivity.
    + exists 404, "Link not found or inactive".
      split; [reflexivity|]. split.
      * intros _ _. split; reflexivity.
      * intros _ (l & e & Hl & Hact & _). injection Hl as <-. congruence.
  - exists 404, "Link not found or inactive".
    split; [reflexivity|]. split.
    + intros _ _. split; reflexivity.
    + intros _ (l & e & Hl & _). discriminate.
Qed.

Lemma track_dead_link_rejected_witness :
  exists status error,
    track_POST sample_env (plain_request "L3") mixed_world
    = (inr (TrackError status error), mixed_world)
    /\ status = 410.
Proof.
  destruct (track_dead_link_rejected sample_env (plain_request "L3") mixed_world)
    as (status & error & Hrun & _ & Hexpired).
  - right. exists lapsed_link. split; [reflexivity|].
    right. exists 500. split; [reflexivity | reflexivity].
  - exists status, error. split; [exact Hrun|].
    apply Hexpired; [reflexivity|].
    exists lapsed_link, 500. repeat split.
Defined.

(* ================================================================== *)
(** * What a recorded visit changes *)

Lemma bumped_counted k ls : Forall2 (counted k) ls (bumped k ls).
Proof.
  induction ls as [|l ls IH]; simpl; constructor; [|exact IH].
  unfold counted, same_but_clicks.
  destruct (String.eqb (TrackingLink.id l) k); simpl; repeat split; lia.
Qed.

Lemma bumped_no_match k ls :
  (forall l, In l ls -> TrackingLink.id l <> k) -> bumped k ls = ls.
Proof.
  induction ls as [|l ls IH]; simpl; intros Hno; [reflexivity|].
  rewrite IH by (intros l' Hin; apply Hno; now right).
  destruct (String.eqb (TrackingLink.id l) k) eqn:Heq; [|reflexivity].
  apply String.eqb_eq in Heq. exfalso. apply (Hno l); [now left | exact Heq].
Qed.

(** Under the primary key, the update touches the one row that
    [getLinkById] returned. *)
Lemma bumped_unique k ls link :
  find_link k ls = Some link ->
  NoDup (map TrackingLink.id ls) ->
  exists before after,
    ls = before ++ link :: after
    /\ bumped k ls = before ++ bump link :: after.
Proof.
  unfold find_link.
  induction ls as [|l ls IH]; simpl; intros Hfind Hnodup; [discriminate|].
  inversion Hnodup as [|? ? Hnotin Hnodup']; subst.
  destruct (String.eqb (TrackingLink.id l) k) eqn:Heq.
  - injection Hfind as ->. apply String.eqb_eq in Heq.
    exists [], ls. split; [reflexivity|]. simpl.
    rewrite bumped_no_match; [reflexivity|].
    intros l' Hin Hid. apply Hnotin. rewrite Heq, <- Hid.
    now apply in_map.
  - destruct (IH Hfind Hnodup') as (before & after & Hls & Hbumped).
    exists (l :: before), after. simpl. split; [now rewrite Hls|].
    now rewrite Hbumped.
Qed.

(** A successful answer only comes from the last path of the handler. *)
Lemma track_POST_ok_inv env request w view w' :
  track_POST env request w = (inr (TrackOk view), w') ->
  exists link, live env request w link.
Proof.
  rewrite track_POST_eq. cbv zeta. unfold live.
  destruct (trackVisitorSchema (body request)); cbn [negb]; [|discriminate].
  destruct (find_link _ _) as [link|]; [|discriminate].
  destruct (TrackingLink.is_active link) eqn:Hactive; cbn [negb];
    [|discriminate].
  destruct (has_expired link (date_now env)) eqn:Hfresh; [discriminate|].
  destruct (id_taken _ _); [discriminate|].
  intros _. exists link. repeat split; assumption.
Qed.

(** C9. After a successful tracking request the [visitors] table is the
    old one followed by exactly one new row, owned by the requested link;
    every row of [links] keeps its identifier, alias, target URL,
    description, creation and expiration timestamps and active flag; the
    click counter of a row grows by one when its identifier is the
    requested one and is unchanged otherwise.  With identifiers unique
    (the primary key), exactly the row found by identifier is replaced by
    its incremented copy. *)
Theorem track_success_frame (env : Env) (request : TrackRequest)
    (w w' : World) (view : VisitorView) :
  track_POST env request w = (inr (TrackOk view), w') ->
  let k := linkId (body request) in
  exists row link,
    find_link k (links (db w)) = Some link
    /\ visitors (db w') = visitors (db w) ++ [row]
    /\ Visitor.link_id row = k
    /\ Visitor.id row = view_id view
    /\ Forall2 (counted k) (links (db w)) (links (db w'))
    /\ (NoDup (map TrackingLink.id (links (db w))) ->
        exists before after,
          links (db w) = before ++ link :: after
          /\ links (db w') = before ++ bump link :: after).
Proof.
  intros Hrun k.
  destruct (track_POST_ok_inv _ _ _ _ _ Hrun) as (link & Hlive).
  rewrite (track_POST_live _ _ _ _ Hlive) in Hrun.
  injection Hrun as Hview Hw'. subst w' view.
  destruct Hlive as (_ & Hfind & _).
  exists (visitor_row (uuidv4 env) (db_now env) k (tracked_data env request)),
         link.
  cbn [db links visitors].
  repeat split; try assumption; try reflexivity.
  - apply bumped_counted.
  - intros Hnodup. now apply bumped_unique.
Qed.

Lemma track_success_frame_witness :
  exists row link,
    find_link "L1" (links (db mixed_world)) = Some link
    /\ visitors (db (snd (track_POST sample_env (plain_request "L1") mixed_world)))
       = visitors (db mixed_world) ++ [row]
    /\ Visitor.link_id row = "L1".
Proof.
  destruct (track_success_frame sample_env (plain_request "L1") mixed_world
              (snd (track_POST sample_env (plain_request "L1") mixed_world))
              (view_of (visitor_object "v-1" 1001 "L1"
                          (tracked_data sample_env (plain_request "L1")))))
    as (row & link & Hfind & Hvisits & Howner & _).
  - reflexivity.
  - exists row, link. auto.
Defined.

(* ================================================================== *)
(** * Where the location of a visit comes from *)

Lemma zero_coordinate_falsy o : zero_coordinate o -> truthy_onum o = false.
Proof.
  intros (q & -> & Hq). unfold truthy_onum, truthy_num.
  apply Qeq_bool_iff in Hq. now rewrite Hq.
Qed.

Lemma zero_coordinate_or o x : zero_coordinate o -> or_num o x = x.
Proof.
  intros Hzero. unfold or_num. now rewrite (zero_coordinate_falsy _ Hzero).
Qed.

(** Device coordinates that are both supplied and non-zero, with no
    accuracy figure or one at or below 1000, are stored as they are, with
    no country and no city, and nothing is fetched. *)
Lemma accurate_fix_kept env ip b la lo w :
  latitude b = Some la -> longitude b = Some lo ->
  ~ (la == 0)%Q -> ~ (lo == 0)%Q ->
  (accuracy b = None \/ exists a, accuracy b = Some a /\ (a <= 1000)%Q) ->
  determine_location env ip b w
  = (inr (mkLocation (Some la) (Some lo) None None None), w).
Proof.
  intros Hla Hlo Hla0 Hlo0 Hacc.
  rewrite determine_location_eq.
  assert (Hneeds : needs_ip_location b = false).
  { unfold needs_ip_location. rewrite Hla, Hlo.
    unfold truthy_onum, truthy_num.
    destruct (Qeq_bool la 0) eqn:E1; [apply Qeq_bool_iff in E1; tauto|].
    destruct (Qeq_bool lo 0) eqn:E2; [apply Qeq_bool_iff in E2; tauto|].
    destruct Hacc as [-> | (a & -> & Ha)]; [reflexivity|].
    unfold Qgt_bool. apply Qle_bool_iff in Ha. rewrite Ha.
    now rewrite andb_false_r. }
  unfold located, track_lookups. rewrite Hneeds, Hla, Hlo.
  now rewrite log_more_nil.
Qed.

(** C10. A tracking request on a live link whose device latitude or
    longitude is zero is treated as one without device coordinates,
    whatever its accuracy: the handler calls the IP resolver for the
    client address (the external calls of the request are the resolver's),
    the stored country and city are the resolver's, and the stored value
    of a zero coordinate is the resolver's value for it, or absent when
    the resolver has none or has zero. *)
Theorem zero_coordinate_treated_as_absent (env : Env)
    (request : TrackRequest) (w : World) (link : TrackingLink) :
  live env request w link ->
  zero_coordinate (latitude (body request))
  \/ zero_coordinate (longitude (body request)) ->
  let ip := getClientIP (headers request) in
  exists ipLocation w1 row view w',
    getLocationFromIP env ip w = (inr ipLocation, w1)
    /\ track_POST env request w = (inr (TrackOk view), w')
    /\ fetch_log w' = fetch_log w1
    /\ visitors (db w') = visitors (db w) ++ [row]
    /\ Visitor.country row = or_null_str (loc_country ipLocation)
    /\ Visitor.city row = or_null_str (loc_city ipLocation)
    /\ (zero_coordinate (latitude (body request)) ->
        Visitor.latitude row = or_null_num (loc_latitude ipLocation))
    /\ (zero_coordinate (longitude (body request)) ->
        Visitor.longitude row = or_null_num (loc_longitude ipLocation)).
Proof.
  intros Hlive Hzero ip.
  assert (Hneeds : needs_ip_location (body request) = true).
  { unfold needs_ip_location.
    destruct Hzero as [Hz | Hz]; rewrite (zero_coordinate_falsy _ Hz);
      cbn [negb]; now rewrite ?orb_true_r. }
  exists (resolved env ip), (log_more w (lookups ip)).
  eexists. eexists. eexists.
  split; [apply getLocationFromIP_eq|].
  split; [apply (track_POST_live _ _ _ _ Hlive)|].
  cbn [db visitors fetch_log log_more].
  unfold track_lookups. rewrite Hneeds. fold ip.
  split; [reflexivity|]. split; [reflexivity|].
  unfold visitor_row, tracked_data, located.
  rewrite Hneeds. fold ip.
  cbn [Visitor.country Visitor.city Visitor.latitude Visitor.longitude
       vd_country vd_city vd_latitude vd_longitude
       loc_country loc_city loc_latitude loc_longitude].
  split; [reflexivity|]. split; [reflexivity|].
  split; intros Hz; now rewrite (zero_coordinate_or _ _ Hz).
Qed.

Lemma zero_coordinate_treated_as_absent_witness :
  exists row view w',
    track_POST sample_env equator_request promo_world
    = (inr (TrackOk view), w')
    /\ visitors (db w') = [row]
    /\ Visitor.country row = Some "United States"
    /\ Visitor.latitude row = Some (374 # 10).
Proof.
  destruct (zero_coordinate_treated_as_absent sample_env equator_request
              promo_world promo_link)
    as (ipLocation & w1 & row & view & w' & Hres & Hrun & _ & Hvisits
        & Hcountry & _ & Hlat & _).
  - repeat split.
  - left. exists 0%Q. split; reflexivity.
  - exists row, view, w'.
    injection Hres as <- _.
    split; [exact Hrun|]. split; [exact Hvisits|].
    split; [exact Hcountry|].
    apply Hlat. exists 0%Q. split; reflexivity.
Defined.

(** C4, at an accurate device fix on the equator (latitude 0, longitude
    10, accuracy 50) sent from a public address: the handler does not
    store the device coordinates with no country and city; it asks the
    resolver, stores the resolver's latitude in place of the device's and
    fills in the resolver's country and city. *)
Theorem accurate_equator_fix_is_overridden :
  trackVisitorSchema (body equator_request) = true
  /\ latitude (body equator_request) = Some 0%Q
  /\ longitude (body equator_request) = Some 10%Q
  /\ accuracy (body equator_request) = Some 50%Q
  /\ track_POST sample_env equator_request promo_world
     = (inr (TrackOk
               (mkView "v-1" (Some "United States") (Some "Mountain View")
                       (Some (374 # 10, 10%Q)) (Some "Desktop")
                       (Some "Chrome") 1001)),
        mkWorld
          (mkDb [bump promo_link]
                [Visitor.mk "v-1" "L1" "8.8.8.8"
                   (Some (374 # 10)) (Some 10%Q)
                   (Some "United States") (Some "Mountain View")
                   (Some "Desktop") (Some "Chrome")
                   (Some "Mozilla/5.0 (X11; Linux x86_64) Chrome/120.0 Safari/537.36")
                   1001])
          ["https://ipapi.co/8.8.8.8/json/"]).
Proof. repeat split. Qed.

(* ================================================================== *)
(** * Creating links *)

Section LinksFacts.

Variable isUrl : string -> bool.

(** Every path of the handler, in one equation. *)
Lemma links_POST_eq env b w :
  links_POST isUrl env b w =
  if negb (createLinkSchema isUrl b)
  then (inr (LinkError 400 "Validation failed"), w)
  else
    match find_active (cl_alias b) (links (db w)) with
    | Some _ =>
        (inr (LinkError 400
                "Alias already exists. Please choose a different one."), w)
    | None =>
        if insert_clash (uuidv4 env) (cl_alias b) (links (db w))
        then (inr (LinkError 500 "Internal server error"), w)
        else
          (inr (LinkCreated
                  (TrackingLink.mk (uuidv4 env) (cl_alias b)
                     (cl_original_url b) (cl_description b) (db_now env)
                     (cl_expires_at b) 0 true)
                  ("http://localhost:3000/link/" ++ cl_alias b)),
           mkWorld
             (mkDb (links (db w)
                    ++ [TrackingLink.mk (uuidv4 env) (cl_alias b)
                          (cl_original_url b)
                          (or_null_str (cl_description b)) (db_now env)
                          (cl_expires_at b) 0 true])
                   (visitors (db w)))
             (fetch_log w))
    end.
Proof.
  unfold links_POST, try_catch.
  unfold bind at 1. unfold createLinkSchema_parse.
  destruct (createLinkSchema isUrl b); cbn [negb]; [|reflexivity].
  unfold ret at 1.
  unfold bind at 1. unfold getLinkByAlias, bind at 1. unfold get_db, ret at 1.
  fold (find_active (cl_alias b) (links (db w))).
  destruct (find_active _ _); [reflexivity|].
  unfold bind at 1. unfold createLink, bind at 1.
  unfold insert_link, bind at 1. unfold get_db.
  cbn [db links TrackingLink.id TrackingLink.alias].
  fold (insert_clash (uuidv4 env) (cl_alias b) (links (db w))).
  destruct (insert_clash _ _ _); reflexivity.
Qed.

(** The handler answers that the alias exists exactly when an active link
    holds the alias. *)
Lemma alias_conflict_iff env b w :
  createLinkSchema isUrl b = true ->
  links_POST isUrl env b w
  = (inr (LinkError 400
            "Alias already exists. Please choose a different one."), w)
  <-> exists l, In l (links (db w))
        /\ TrackingLink.alias l = cl_alias b
        /\ TrackingLink.is_active l = true.
Proof.
  intros Hvalid. rewrite links_POST_eq, Hvalid. cbn [negb].
  unfold find_active.
  destruct (find _ _) as [l|] eqn:Hfind.
  - split; [intros _ | reflexivity].
    apply find_some in Hfind. destruct Hfind as (Hin & Htest).
    apply andb_true_iff in Htest. destruct Htest as (Halias & Hactive).
    apply String.eqb_eq in Halias. eauto.
  - split.
    + destruct (insert_clash _ _ _); discriminate.
    + intros (l & Hin & Halias & Hactive). exfalso.
      pose proof (find_none _ _ Hfind l Hin) as Hno. cbn beta in Hno.
      rewrite Halias, String.eqb_refl, Hactive in Hno. discriminate.
Qed.

(** An alias held only by deactivated rows is still refused: the [INSERT]
    runs into the [UNIQUE] column and the handler answers 500. *)
Lemma deactivated_alias_blocks env b w l :
  createLinkSchema isUrl b = true ->
  find_active (cl_alias b) (links (db w)) = None ->
  In l (links (db w)) -> TrackingLink.alias l = cl_alias b ->
  links_POST isUrl env b w
  = (inr (LinkError 500 "Internal server error"), w).
Proof.
  intros Hvalid Hnone Hin Halias.
  rewrite links_POST_eq, Hvalid, Hnone. cbn [negb].
  assert (Hclash : insert_clash (uuidv4 env) (cl_alias b) (links (db w)) = true).
  { unfold insert_clash. apply orb_true_iff. right.
    apply existsb_exists. exists l. split; [exact Hin|].
    rewrite Halias. apply String.eqb_refl. }
  now rewrite Hclash.
Qed.

End LinksFacts.

(** C1, on the sequence create, deactivate, create again with the alias
    promo: the first creation succeeds; after [deleteLink] no active link
    holds the alias; yet the second creation does not succeed and returns
    no link: it is answered 500 and the store is left as it was. *)
Theorem deactivated_alias_cannot_be_reused (isUrl : string -> bool) :
  isUrl "https://example.com/landing" = true ->
  exists link url w1,
    links_POST isUrl first_env promo_body empty_world
    = (inr (LinkCreated link url), w1)
    /\ let w2 := snd (deleteLink (TrackingLink.id link) w1) in
       getLinkByAlias "promo" w2 = (inr None, w2)
       /\ links_POST isUrl second_env promo_body w2
          = (inr (LinkError 500 "Internal server error"), w2).
Proof.
  intros Hurl.
  assert (Hvalid : createLinkSchema isUrl promo_body = true).
  { unfold createLinkSchema. cbn. exact Hurl. }
  do 3 eexists. split.
  - rewrite links_POST_eq, Hvalid. reflexivity.
  - cbv zeta. split; [reflexivity|].
    rewrite links_POST_eq, Hvalid. reflexivity.
Qed.

Lemma deactivated_alias_cannot_be_reused_witness :
  exists link url w1,
    links_POST (fun _ => true) first_env promo_body empty_world
    = (inr (LinkCreated link url), w1)
    /\ links_POST (fun _ => true) second_env promo_body
         (snd (deleteLink (TrackingLink.id link) w1))
       = (inr (LinkError 500 "Internal server error"),
          snd (deleteLink (TrackingLink.id link) w1)).
Proof.
  destruct (deactivated_alias_cannot_be_reused (fun _ => true) eq_refl)
    as (link & url & w1 & Hfirst & _ & Hsecond).
  exists link, url, w1. split; assumption.
Defined.

(* ================================================================== *)
(** * The analytics figures *)

(** [floor (n/d + 1/2)] on integers. *)
Lemma round_half_up n d :
  0 < d ->
  Qfloor (inject_Z n / inject_Z d + (1 # 2))%Q = (2 * n + d) / (2 * d).
Proof.
  intros Hd.
  assert (Hq : (inject_Z n / inject_Z d + (1 # 2) == (2 * n + d) # (Z.to_pos (2 * d)))%Q).
  { rewrite (Qmake_Qdiv (2 * n + d)).
    rewrite Z2Pos.id by lia.
    rewrite inject_Z_plus, !inject_Z_mult.
    assert (Hd0 : ~ (inject_Z d == 0)%Q).
    { intros H. unfold Qeq in H. simpl in H. lia. }
    field. exact Hd0. }
  rewrite (Qfloor_comp _ _ Hq).
  unfold Qfloor. rewrite Z2Pos.id by lia. reflexivity.
Qed.

(** On a window of [d > 0] days the figure is [n / d] rounded to the
    nearest integer, ties upwards. *)
Lemma average_of_positive_window n d :
  0 <= n -> 0 < d ->
  Math_round (num_div (Num (inject_Z n)) (Num (inject_Z d)))
  = Num (inject_Z ((2 * n + d) / (2 * d))).
Proof.
  intros Hn Hd.
  unfold num_div. cbn [is_inf is_neg is_zero qval].
  assert (Hdz : Qeq_bool (inject_Z d) 0 = false).
  { destruct (Qeq_bool (inject_Z d) 0) eqn:E; [|reflexivity].
    apply Qeq_bool_iff in E. unfold Qeq in E. simpl in E. lia. }
  assert (Hnn : Qle_bool 0 (inject_Z n) = true).
  { apply Qle_bool_iff. unfold Qle. simpl. lia. }
  assert (Hdn : Qle_bool 0 (inject_Z d) = true).
  { apply Qle_bool_iff. unfold Qle. simpl. lia. }
  rewrite Hdz, Hnn, Hdn. cbn [negb xorb mk_zero].
  destruct (Qeq_bool (inject_Z n) 0) eqn:En.
  - apply Qeq_bool_iff in En. unfold Qeq in En. simpl in En.
    assert (n = 0) by lia. subst n.
    replace ((2 * 0 + d) / (2 * d)) with 0
      by (symmetry; apply Z.div_small; lia).
    reflexivity.
  - unfold Math_round. rewrite round_half_up by exact Hd.
    assert (Hq : Qle_bool 0 (inject_Z n / inject_Z d) = true).
    { apply Qle_bool_iff. apply Qle_shift_div_l.
      - unfold Qlt. simpl. lia.
      - rewrite Qmult_0_l. unfold Qle. simpl. lia. }
    rewrite Hq. cbn [negb]. now rewrite andb_false_r.
Qed.

(** [getClickStats] returns for no argument and no store.  With a link
    identifier the first statement runs and the second, whose result
    column is named [unique], is refused by the parser; with none the
    first statement has no placeholder for the value that [.get(linkId)]
    passes.  The store is left as it was. *)
Lemma getClickStats_throws linkId w :
  getClickStats linkId w = (inl (stats_failure linkId), w).
Proof.
  unfold getClickStats, stats_failure, clicksQuery, uniqueQuery.
  destruct (truthy_ostr linkId); reflexivity.
Qed.

(** The analytics handler calls [getClickStats] first, so its [catch]
    answers every request. *)
Lemma analytics_GET_eq env query w :
  analytics_GET env query w
  = (inr (AnalyticsError 500 "Internal server error"), w).
Proof.
  unfold analytics_GET, try_catch. cbv zeta.
  unfold bind at 1. now rewrite getClickStats_throws.
Qed.

(** C2 fails in the code.  [GET /api/analytics] returns no average: for
    every query and every store, the empty one included, the handler
    answers 500 "Internal server error" and leaves the world as it was,
    because [getClickStats] throws before the figure is computed; no
    request is answered with an overview.  The figure itself,
    [Math.round(stats.totalClicks / days)], has no guard on [days]:
    [days=0] is read as the number 0, and the quotient by it rounds to
    [NaN] for no visit and to [Infinity] for one. *)
Theorem analytics_answers_no_average :
  (forall env query w,
     analytics_GET env query w
     = (inr (AnalyticsError 500 "Internal server error"), w))
  /\ (forall env query w a w',
        analytics_GET env query w <> (inr (AnalyticsOk a), w'))
  /\ analytics_GET sample_env (mkQuery None (Some "7")) empty_world
     = (inr (AnalyticsError 500 "Internal server error"), empty_world)
  /\ parseInt (or_str (Some "0") "30") = Num 0
  /\ Math_round (num_div (Num (inject_Z 0)) (parseInt "0")) = NaN
  /\ Math_round (num_div (Num (inject_Z 1)) (parseInt "0")) = PInf.
Proof.
  split; [exact analytics_GET_eq|].
  split; [intros env query w a w'; rewrite analytics_GET_eq; discriminate|].
  split; [apply analytics_GET_eq|].
  repeat split; reflexivity.
Qed.

(* ================================================================== *)
(** * Recent activity *)

Lemma insert_desc_perm v l : Permutation (insert_desc v l) (v :: l).
Proof.
  induction l as [|x l IH]; simpl; [reflexivity|].
  destruct (Visitor.visited_at x <? Visitor.visited_at v); [reflexivity|].
  rewrite IH. apply perm_swap.
Qed.

Lemma order_by_visited_at_desc_perm l :
  Permutation (order_by_visited_at_desc l) l.
Proof.
  induction l as [|v l IH]; simpl; [reflexivity|].
  rewrite insert_desc_perm. now constructor.
Qed.

Lemma insert_desc_sorted v l :
  StronglySorted newer_first l -> StronglySorted newer_first (insert_desc v l).
Proof.
  induction 1 as [|x l Hsorted IH Hall]; simpl.
  - repeat constructor.
  - destruct (Visitor.visited_at x <? Visitor.visited_at v) eqn:Hlt.
    + apply Z.ltb_lt in Hlt. constructor; [now constructor|].
      constructor; [unfold newer_first; lia|].
      eapply Forall_impl; [|exact Hall]. unfold newer_first. intros; lia.
    + apply Z.ltb_ge in Hlt. constructor; [exact IH|].
      eapply Permutation_Forall; [symmetry; apply insert_desc_perm|].
      constructor; [exact Hlt | exact Hall].
Qed.

Lemma order_by_visited_at_desc_sorted l :
  StronglySorted newer_first (order_by_visited_at_desc l).
Proof.
  induction l as [|v l IH]; simpl; [constructor|].
  now apply insert_desc_sorted.
Qed.

(** C5 fails in the code.  The aggregator has no recent-activity output:
    [getClickStats] throws for every argument and every store, which it
    leaves as it was, and [GET /api/analytics] answers no request with a
    recent activity.  On a store with 21 visits the answer is 500
    "Internal server error", not the 20 most recent visits.  The text of
    the statement that would select the recent visits ends in a fixed
    [LIMIT 10], with or without a link identifier: the aggregator has no
    way to be asked for more. *)
Theorem recent_activity_is_never_returned :
  (forall linkId w, exists e, getClickStats linkId w = (inl e, w))
  /\ (forall env query w a w',
        analytics_GET env query w <> (inr (AnalyticsOk a), w'))
  /\ length (visitors (db busy_world)) = 21%nat
  /\ analytics_GET sample_env (mkQuery None None) busy_world
     = (inr (AnalyticsError 500 "Internal server error"), busy_world)
  /\ recentQuery None
     = "SELECT * FROM visitors ORDER BY visited_at DESC LIMIT 10"
  /\ recentQuery (Some "L1")
     = "SELECT * FROM visitors WHERE link_id = ? ORDER BY visited_at DESC LIMIT 10".
Proof.
  split; [intros linkId w; eexists; apply getClickStats_throws|].
  split; [intros env query w a w'; rewrite analytics_GET_eq; discriminate|].
  split; [reflexivity|].
  split; [apply analytics_GET_eq|].
  split; reflexivity.
Qed.

(* ================================================================== *)
(** * Browser classification *)

(** C8 as stated fails: a user agent with the edg and chrome markers that
    also carries the firefox marker is classified Firefox, not Edge. *)
Lemma edge_marker_counterexample :
  includes (toLowerCase "chrome edg firefox") "edg" = true
  /\ includes (toLowerCase "chrome edg firefox") "chrome" = true
  /\ dev_browser (parseUserAgent "chrome edg firefox") = "Firefox"
  /\ dev_browser (parseUserAgent "chrome edg firefox") <> "Edge".
Proof. repeat split. discriminate. Qed.

(** C8, amended. The browser name of a user agent is the name of the first
    matching rule of the ordered table (Chrome and not Edge, Firefox,
    Safari and not Chrome, Edge, Opera), Unknown when none matches; a user
    agent with the edg and chrome markers and without the firefox marker
    is classified Edge. *)
Theorem browser_first_match_wins (userAgent : string) :
  let ua := toLowerCase userAgent in
  dev_browser (parseUserAgent userAgent)
  = first_match browser_rules ua "Unknown"
  /\ (includes ua "edg" = true -> includes ua "chrome" = true ->
      includes ua "firefox" = false ->
      dev_browser (parseUserAgent userAgent) = "Edge").
Proof.
  intros ua. split; [reflexivity|].
  intros Hedg Hchrome Hfirefox.
  unfold parseUserAgent, classify_browser. cbn [dev_browser]. fold ua.
  rewrite Hedg, Hchrome, Hfirefox. cbn [andb negb].
  now rewrite andb_false_r.
Qed.

Lemma browser_first_match_wins_witness :
  dev_browser
    (parseUserAgent "Mozilla/5.0 Chrome/120.0.0.0 Safari/537.36 Edg/120.0")
  = "Edge".
Proof.
  apply (browser_first_match_wins
           "Mozilla/5.0 Chrome/120.0.0.0 Safari/537.36 Edg/120.0");
    reflexivity.
Defined.

(* ================================================================== *)
(** * What each operation does to the store *)

Lemma update_links_eq cond set w :
  update_links cond set w
  = (inr tt,
     mkWorld (mkDb (map (fun l => if cond l then set l else l) (links (db w)))
                   (visitors (db w)))
             (fetch_log w)).
Proof. reflexivity. Qed.

Lemma deleteLink_eq k w :
  deleteLink k w
  = (inr tt, mkWorld (mkDb (retired k (links (db w))) (visitors (db w)))
                     (fetch_log w)).
Proof. reflexivity. Qed.

Lemma cleanupExpiredLinks_eq now w :
  cleanupExpiredLinks now w
  = (inr tt, mkWorld (mkDb (swept now (links (db w))) (visitors (db w)))
                     (fetch_log w)).
Proof. reflexivity. Qed.

(** A tracking request either leaves both tables as they are or, on a live
    link, appends its row and counts it. *)
Lemma track_POST_db env request w :
  db (snd (track_POST env request w)) = db w
  \/ exists link,
       live env request w link
       /\ db (snd (track_POST env request w))
          = mkDb (bumped (linkId (body request)) (links (db w)))
                 (visitors (db w)
                  ++ [visitor_row (uuidv4 env) (db_now env)
                                  (linkId (body request))
                                  (tracked_data env request)]).
Proof.
  rewrite track_POST_eq. cbv zeta.
  destruct (trackVisitorSchema (body request)) eqn:Hvalid; cbn [negb];
    [|now left].
  destruct (find_link _ _) as [link|] eqn:Hfind; [|now left].
  destruct (TrackingLink.is_active link) eqn:Hactive; cbn [negb];
    [|now left].
  destruct (has_expired link (date_now env)) eqn:Hfresh; [now left|].
  destruct (id_taken _ _) eqn:Hid; [now left|].
  right. exists link. split; [repeat split; assumption | reflexivity].
Qed.

(** A creation request either leaves both tables as they are or appends
    its row, whose identifier and alias no row holds yet. *)
Lemma links_POST_db isUrl env b w :
  db (snd (links_POST isUrl env b w)) = db w
  \/ (insert_clash (uuidv4 env) (cl_alias b) (links (db w)) = false
      /\ db (snd (links_POST isUrl env b w))
         = mkDb (links (db w)
                 ++ [TrackingLink.mk (uuidv4 env) (cl_alias b)
                       (cl_original_url b) (or_null_str (cl_description b))
                       (db_now env) (cl_expires_at b) 0 true])
                (visitors (db w))).
Proof.
  rewrite links_POST_eq.
  destruct (createLinkSchema isUrl b); cbn [negb]; [|now left].
  destruct (find_active _ _); [now left|].
  destruct (insert_clash _ _ _) eqn:Hclash; [now left|].
  right. split; reflexivity.
Qed.

Lemma with_stats_throws link w :
  with_stats link w
  = (inl (stats_failure (Some (TrackingLink.id link))), w).
Proof.
  unfold with_stats. unfold bind at 1. now rewrite getClickStats_throws.
Qed.

(** [links.map(...)] over a list that is not empty throws at its first
    element. *)
Lemma mapM_with_stats_throws l ls w :
  mapM with_stats (l :: ls) w
  = (inl (stats_failure (Some (TrackingLink.id l))), w).
Proof.
  cbn [mapM]. unfold bind at 1. now rewrite with_stats_throws.
Qed.

(** Every path of the listing handler, in one equation: the sweep, then
    the lookup or the listing, on the swept store. *)
Lemma links_GET_eq env alias w :
  links_GET env alias w =
  let d := mkDb (swept (db_now env) (links (db w))) (visitors (db w)) in
  (inr (if truthy_ostr alias then
          match find_active (or_str alias "") (links d) with
          | None => LinksGetError 404 "Link not found"
          | Some link => LinksGetError 500 "Internal server error"
          end
        else match order_by_created_at_desc (links d) with
             | [] => LinkList []
             | _ :: _ => LinksGetError 500 "Internal server error"
             end),
   mkWorld d (fetch_log w)).
Proof.
  unfold links_GET, try_catch. cbv zeta.
  unfold bind at 1. rewrite cleanupExpiredLinks_eq.
  destruct (truthy_ostr alias).
  - unfold bind at 1. unfold getLinkByAlias, bind at 1. unfold get_db, ret at 1.
    cbn [db links]. unfold find_active.
    destruct (find _ _) as [link|]; [|reflexivity].
    unfold bind at 1. rewrite with_stats_throws. reflexivity.
  - unfold bind at 1. unfold getAllLinks, bind at 1. unfold get_db, ret at 1.
    cbn [db links].
    destruct (order_by_created_at_desc _) as [|l ls]; [reflexivity|].
    unfold bind at 1. rewrite mapM_with_stats_throws. reflexivity.
Qed.

(* ================================================================== *)
(** * Invariants of the store *)

Lemma or_null_num_stored o : stored_num (or_null_num o).
Proof.
  unfold or_null_num, truthy_onum, truthy_num. destruct o as [q|]; [|exact I].
  destruct (Qeq_bool q 0) eqn:E; cbn [negb]; [exact I|].
  cbn. intros Hq. apply Qeq_bool_iff in Hq. congruence.
Qed.

Lemma or_null_str_stored o : stored_str (or_null_str o).
Proof.
  destruct o as [[|c s]|]; cbn; try exact I. discriminate.
Qed.

(** Whatever it is given, [recordVisitor] writes a clean row. *)
Lemma visitor_row_clean k now linkId data :
  clean_visit (visitor_row k now linkId data).
Proof.
  unfold clean_visit, visitor_row. cbn.
  repeat split; first [apply or_null_num_stored | apply or_null_str_stored].
Qed.

Section RowMaps.

(** An update of rows that keeps identifiers, aliases and counters. *)
Variable f : TrackingLink -> TrackingLink.
Hypothesis f_id : forall l, TrackingLink.id (f l) = TrackingLink.id l.
Hypothesis f_alias : forall l, TrackingLink.alias (f l) = TrackingLink.alias l.
Hypothesis f_clicks :
  forall l, TrackingLink.click_count (f l) = TrackingLink.click_count l.

Lemma map_keeps_ids ls : map TrackingLink.id (map f ls) = map TrackingLink.id ls.
Proof. rewrite map_map. apply map_ext. exact f_id. Qed.

Lemma map_keeps_aliases ls :
  map TrackingLink.alias (map f ls) = map TrackingLink.alias ls.
Proof. rewrite map_map. apply map_ext. exact f_alias. Qed.

Lemma map_keeps_invariant ls vs :
  invariant (mkDb ls vs) -> invariant (mkDb (map f ls) vs).
Proof.
  unfold invariant, well_formed, counters_match. cbn [links visitors].
  intros ((Hid & Halias & Hvid & Hfk) & Hcount & Hclean).
  rewrite map_keeps_ids, map_keeps_aliases.
  repeat split; try assumption.
  rewrite Forall_map. eapply Forall_impl; [|exact Hcount].
  intros l Hl. cbn beta. now rewrite f_clicks, f_id.
Qed.

End RowMaps.

Lemma swept_invariant now ls vs :
  invariant (mkDb ls vs) -> invariant (mkDb (swept now ls) vs).
Proof.
  apply map_keeps_invariant; intros l; now destruct (has_expired l now).
Qed.

Lemma retired_invariant k ls vs :
  invariant (mkDb ls vs) -> invariant (mkDb (retired k ls) vs).
Proof.
  apply map_keeps_invariant; intros l;
    now destruct (String.eqb (TrackingLink.id l) k).
Qed.

Lemma bumped_ids k ls : map TrackingLink.id (bumped k ls) = map TrackingLink.id ls.
Proof.
  unfold bumped. rewrite map_map. apply map_ext.
  intros l. now destruct (String.eqb (TrackingLink.id l) k).
Qed.

Lemma bumped_aliases k ls :
  map TrackingLink.alias (bumped k ls) = map TrackingLink.alias ls.
Proof.
  unfold bumped. rewrite map_map. apply map_ext.
  intros l. now destruct (String.eqb (TrackingLink.id l) k).
Qed.

Lemma visits_of_snoc k vs v :
  visits_of k (vs ++ [v])
  = (visits_of k vs + (if String.eqb (Visitor.link_id v) k then 1 else 0))%nat.
Proof.
  unfold visits_of. rewrite filter_app, length_app. cbn.
  now destruct (String.eqb (Visitor.link_id v) k).
Qed.

Lemma id_taken_false k vs :
  id_taken k vs = false -> ~ In k (map Visitor.id vs).
Proof.
  unfold id_taken. intros Hno Hin. apply in_map_iff in Hin.
  destruct Hin as (v & Hv & Hin).
  assert (Hex : existsb (fun v => String.eqb (Visitor.id v) k) vs = true).
  { apply existsb_exists. exists v. split; [exact Hin|].
    rewrite Hv. apply String.eqb_refl. }
  congruence.
Qed.

Lemma find_link_in k ls l :
  find_link k ls = Some l -> In l ls /\ TrackingLink.id l = k.
Proof.
  unfold find_link. intros H. apply find_some in H.
  destruct H as (Hin & Heq). now apply String.eqb_eq in Heq.
Qed.

(** Recording a visit keeps the invariants. *)
Lemma recorded_invariant env request w link :
  live env request w link ->
  invariant (db w) ->
  invariant (mkDb (bumped (linkId (body request)) (links (db w)))
                  (visitors (db w)
                   ++ [visitor_row (uuidv4 env) (db_now env)
                                   (linkId (body request))
                                   (tracked_data env request)])).
Proof.
  intros (_ & Hfind & _ & _ & Hfresh).
  unfold invariant, well_formed, counters_match. cbn [links visitors].
  intros ((Hid & Halias & Hvid & Hfk) & Hcount & Hclean).
  destruct (find_link_in _ _ _ Hfind) as (Hin & Hk).
  rewrite bumped_ids, bumped_aliases.
  repeat split; try assumption.
  - rewrite map_app. cbn.
    apply NoDup_app; [exact Hvid | repeat constructor; intros [] | ].
    intros x Hx [<- | []]. now apply (id_taken_false _ _ Hfresh).
  - apply Forall_app. split; [exact Hfk|].
    constructor; [|constructor]. cbn. rewrite <- Hk. now apply in_map.
  - unfold bumped. rewrite Forall_map.
    eapply Forall_impl; [|exact Hcount].
    intros l Hl. cbn beta in Hl |- *. rewrite visits_of_snoc.
    cbn [Visitor.link_id visitor_row].
    rewrite (String.eqb_sym (linkId (body request))).
    destruct (String.eqb (TrackingLink.id l) (linkId (body request))) eqn:Heq;
      cbn [bump TrackingLink.click_count TrackingLink.id]; rewrite ?Heq; lia.
  - apply Forall_app. split; [exact Hclean|].
    constructor; [apply visitor_row_clean | constructor].
Qed.

Lemma insert_clash_false k a ls :
  insert_clash k a ls = false ->
  ~ In k (map TrackingLink.id ls) /\ ~ In a (map TrackingLink.alias ls).
Proof.
  unfold insert_clash. intros H. apply orb_false_iff in H.
  destruct H as (Hid & Halias). split; intros Hin;
    apply in_map_iff in Hin; destruct Hin as (l & Hl & Hin).
  - assert (existsb (fun l => String.eqb (TrackingLink.id l) k) ls = true).
    { apply existsb_exists. exists l. split; [exact Hin|].
      rewrite Hl. apply String.eqb_refl. }
    congruence.
  - assert (existsb (fun l => String.eqb (TrackingLink.alias l) a) ls = true).
    { apply existsb_exists. exists l. split; [exact Hin|].
      rewrite Hl. apply String.eqb_refl. }
    congruence.
Qed.

Lemma visits_of_unknown k ls vs :
  Forall (fun v => In (Visitor.link_id v) (map TrackingLink.id ls)) vs ->
  ~ In k (map TrackingLink.id ls) ->
  visits_of k vs = 0%nat.
Proof.
  unfold visits_of. intros Hfk Hk.
  induction Hfk as [|v vs Hv _ IH]; [reflexivity|].
  cbn. destruct (String.eqb (Visitor.link_id v) k) eqn:Heq; [|exact IH].
  apply String.eqb_eq in Heq. congruence.
Qed.

(** Creating a link keeps the invariants. *)
Lemma created_invariant k a row ls vs :
  insert_clash k a ls = false ->
  TrackingLink.id row = k -> TrackingLink.alias row = a ->
  TrackingLink.click_count row = 0 ->
  invariant (mkDb ls vs) -> invariant (mkDb (ls ++ [row]) vs).
Proof.
  intros Hclash Hk Ha Hzero.
  destruct (insert_clash_false _ _ _ Hclash) as (Hnoid & Hnoalias).
  unfold invariant, well_formed, counters_match. cbn [links visitors].
  intros ((Hid & Halias & Hvid & Hfk) & Hcount & Hclean).
  rewrite !map_app. cbn [map]. rewrite Hk, Ha.
  repeat split; try assumption.
  - apply NoDup_app; [exact Hid | repeat constructor; intros [] | ].
    intros x Hx [<- | []]. contradiction.
  - apply NoDup_app; [exact Halias | repeat constructor; intros [] | ].
    intros x Hx [<- | []]. contradiction.
  - eapply Forall_impl; [|exact Hfk].
    intros v Hv. apply in_or_app. now left.
  - apply Forall_app. split; [exact Hcount|].
    constructor; [|constructor].
    rewrite Hzero, Hk. now rewrite (visits_of_unknown _ _ _ Hfk Hnoid).
Qed.

(** Every store the application can reach satisfies the three
    invariants. *)
Lemma reachable_invariant w : reachable w -> invariant (db w).
Proof.
  induction 1 as [| env request w _ IH | isUrl env b w _ IH
                  | env alias w _ IH | env query w _ IH | k w _ IH].
  - repeat split; constructor.
  - destruct (track_POST_db env request w) as [-> | (link & Hlive & ->)];
      [exact IH | now apply (recorded_invariant _ _ _ link)].
  - destruct (links_POST_db isUrl env b w) as [-> | (Hclash & ->)];
      [exact IH|].
    destruct (db w) as [ls vs].
    now apply (created_invariant (uuidv4 env) (cl_alias b)).
  - rewrite links_GET_eq. cbn [snd db].
    destruct (db w) as [ls vs]. now apply swept_invariant.
  - rewrite analytics_GET_eq. exact IH.
  - rewrite deleteLink_eq. cbn [snd db].
    destruct (db w) as [ls vs]. now apply retired_invariant.
Qed.

Lemma promo_world_reachable : reachable promo_world.
Proof.
  exact (reach_create always_url creating_env promo_body empty_world reach_empty).
Qed.

Lemma visited_world_reachable : reachable visited_world.
Proof.
  exact (reach_track sample_env (plain_request "L1") promo_world
                     promo_world_reachable).
Qed.

(** X1. In every store the application can reach, link identifiers are
    unique, aliases are unique among all links (deactivated ones
    included), visit identifiers are unique, and every visit names an
    existing link. *)
Theorem reachable_store_well_formed (w : World) :
  reachable w -> well_formed (db w).
Proof. intros Hreach. now destruct (reachable_invariant w Hreach). Qed.

Lemma reachable_store_well_formed_witness : well_formed (db visited_world).
Proof. exact (reachable_store_well_formed visited_world visited_world_reachable). Defined.

(** X2. In every store the application can reach, the click counter of
    each link equals the number of visit rows recorded for it. *)
Theorem reachable_counters_match (w : World) (l : TrackingLink) :
  reachable w -> In l (links (db w)) ->
  TrackingLink.click_count l
  = Z.of_nat (visits_of (TrackingLink.id l) (visitors (db w))).
Proof.
  intros Hreach Hin.
  destruct (reachable_invariant w Hreach) as (_ & Hcount & _).
  unfold counters_match in Hcount. rewrite Forall_forall in Hcount.
  now apply Hcount.
Qed.

Lemma reachable_counters_match_witness :
  TrackingLink.click_count (bump promo_link) = 1.
Proof.
  rewrite (reachable_counters_match visited_world (bump promo_link)
             visited_world_reachable).
  - reflexivity.
  - left. reflexivity.
Defined.

(** X3. No visit row of a reachable store holds a zero latitude or
    longitude or an empty country, city, device, browser or user agent:
    such values are stored as missing. *)
Theorem reachable_visits_clean (w : World) (v : Visitor) :
  reachable w -> In v (visitors (db w)) -> clean_visit v.
Proof.
  intros Hreach Hin.
  destruct (reachable_invariant w Hreach) as (_ & _ & Hclean).
  rewrite Forall_forall in Hclean. now apply Hclean.
Qed.

Lemma reachable_visits_clean_witness :
  clean_visit (visitor_row "v-1" 1001 "L1"
                 (tracked_data sample_env (plain_request "L1"))).
Proof.
  apply (reachable_visits_clean visited_world _ visited_world_reachable).
  left. reflexivity.
Defined.

(* ================================================================== *)
(** * Creating, finding and retiring links *)

Lemma find_snoc {A} (f : A -> bool) (l : list A) (x : A) :
  find f l = None -> find f (l ++ [x]) = if f x then Some x else None.
Proof.
  induction l as [|a l IH]; cbn; [reflexivity|].
  destruct (f a); [discriminate | exact IH].
Qed.

Lemma existsb_false_find {A} (f : A -> bool) (l : list A) :
  existsb f l = false -> find f l = None.
Proof.
  induction l as [|a l IH]; cbn; [reflexivity|].
  destruct (f a); [discriminate | exact IH].
Qed.

(** X4. A link that [POST /api/links] reports as created is found again,
    by its alias and by its identifier: the stored row is active, has a
    zero counter and the requested alias, target and expiry; it is the
    link of the answer, except that an empty description is stored as
    missing. *)
Theorem created_link_is_found (isUrl : string -> bool) (env : Env)
    (b : CreateLinkBody) (w w' : World) (link : TrackingLink) (url : string) :
  links_POST isUrl env b w = (inr (LinkCreated link url), w') ->
  let row := TrackingLink.mk (uuidv4 env) (cl_alias b) (cl_original_url b)
               (or_null_str (cl_description b)) (db_now env)
               (cl_expires_at b) 0 true in
  getLinkByAlias (cl_alias b) w' = (inr (Some row), w')
  /\ getLinkById (TrackingLink.id link) w' = (inr (Some row), w')
  /\ link = TrackingLink.mk (uuidv4 env) (cl_alias b) (cl_original_url b)
              (cl_description b) (db_now env) (cl_expires_at b) 0 true.
Proof.
  rewrite links_POST_eq.
  destruct (createLinkSchema isUrl b); cbn [negb]; [|discriminate].
  destruct (find_active _ _) eqn:Hnone; [discriminate|].
  destruct (insert_clash _ _ _) eqn:Hclash; [discriminate|].
  intros Hrun. injection Hrun as <- _ <-. cbv zeta.
  unfold insert_clash in Hclash. apply orb_false_iff in Hclash.
  destruct Hclash as (Hnoid & _).
  unfold getLinkByAlias, getLinkById, bind, get_db, ret.
  cbn [db links TrackingLink.id].
  unfold find_active in Hnone.
  rewrite (find_snoc _ _ _ Hnone).
  rewrite (find_snoc _ _ _ (existsb_false_find _ _ Hnoid)).
  cbn [TrackingLink.alias TrackingLink.is_active TrackingLink.id].
  rewrite !String.eqb_refl. cbn [andb].
  repeat split.
Qed.

Lemma created_link_is_found_witness :
  getLinkByAlias "promo" promo_world = (inr (Some promo_link), promo_world).
Proof.
  apply (created_link_is_found always_url creating_env promo_body empty_world
           promo_world promo_link "http://localhost:3000/link/promo").
  reflexivity.
Defined.

(** X5. A created link can be tracked at once, and only its expiry stands
    in the way: a valid request for its identifier is answered 410 when
    the requested expiry is before the time of the request (the creation
    accepts an expiry that is already past), and is recorded otherwise,
    provided the visit identifier is new. *)
Theorem created_link_is_trackable (isUrl : string -> bool) (env env2 : Env)
    (b : CreateLinkBody) (w w' : World) (link : TrackingLink) (url : string)
    (request : TrackRequest) :
  links_POST isUrl env b w = (inr (LinkCreated link url), w') ->
  trackVisitorSchema (body request) = true ->
  linkId (body request) = TrackingLink.id link ->
  ((exists e, cl_expires_at b = Some e /\ e < date_now env2) ->
   track_POST env2 request w' = (inr (TrackError 410 "Link has expired"), w'))
  /\ ((forall e, cl_expires_at b = Some e -> date_now env2 <= e) ->
      id_taken (uuidv4 env2) (visitors (db w)) = false ->
      exists view w'',
        track_POST env2 request w' = (inr (TrackOk view), w'')
        /\ visitors (db w'') = visitors (db w) ++
             [visitor_row (uuidv4 env2) (db_now env2) (TrackingLink.id link)
                          (tracked_data env2 request)]).
Proof.
  intros Hrun Hvalid Hk.
  pose proof Hrun as Hrun'.
  rewrite links_POST_eq in Hrun'.
  destruct (createLinkSchema isUrl b); cbn [negb] in Hrun'; [|discriminate].
  destruct (find_active _ _); [discriminate|].
  destruct (insert_clash _ _ _) eqn:Hclash; [discriminate|].
  injection Hrun' as Hlink _ Hw'.
  unfold insert_clash in Hclash. apply orb_false_iff in Hclash.
  destruct Hclash as (Hnoid & _).
  assert (Hfind : find_link (linkId (body request)) (links (db w'))
                  = Some (TrackingLink.mk (uuidv4 env) (cl_alias b)
                            (cl_original_url b)
                            (or_null_str (cl_description b)) (db_now env)
                            (cl_expires_at b) 0 true)).
  { rewrite Hk, <- Hlink, <- Hw'. cbn [db links TrackingLink.id].
    unfold find_link.
    rewrite (find_snoc _ _ _ (existsb_false_find _ _ Hnoid)).
    cbn [TrackingLink.id]. now rewrite String.eqb_refl. }
  assert (Hvisitors : visitors (db w') = visitors (db w)).
  { now rewrite <- Hw'. }
  rewrite track_POST_eq. cbv zeta.
  rewrite Hvalid, Hfind. cbn [negb TrackingLink.is_active].
  unfold has_expired. cbn [TrackingLink.expires_at].
  split.
  - intros (e & -> & Hlt). apply Z.ltb_lt in Hlt. now rewrite Hlt.
  - intros Hfuture Hfresh.
    assert (Hnot : match cl_expires_at b with
                   | Some e => e <? date_now env2
                   | None => false
                   end = false).
    { destruct (cl_expires_at b) as [e|]; [|reflexivity].
      apply Z.ltb_ge. now apply Hfuture. }
    rewrite Hnot, Hvisitors, Hfresh.
    do 2 eexists. split; [reflexivity|].
    cbn [db visitors]. now rewrite Hk.
Qed.

Lemma created_link_is_trackable_witness :
  exists w',
    links_POST always_url creating_env stale_body empty_world
    = (inr (LinkCreated
              (TrackingLink.mk "L1" "sale" "https://example.com/sale"
                               (Some "") 10 (Some 500) 0 true)
              "http://localhost:3000/link/sale"), w')
    /\ track_POST sample_env (plain_request "L1") w'
       = (inr (TrackError 410 "Link has expired"), w').
Proof.
  eexists. split; [reflexivity|].
  eapply (created_link_is_trackable always_url creating_env sample_env
            stale_body empty_world).
  - reflexivity.
  - reflexivity.
  - reflexivity.
  - exists 500. split; reflexivity.
Defined.

Lemma retired_related k ls :
  Forall2 (fun l l' =>
             same_but_active l l'
             /\ TrackingLink.is_active l'
                = TrackingLink.is_active l
                  && negb (String.eqb (TrackingLink.id l) k))
          ls (retired k ls).
Proof.
  induction ls as [|l ls IH]; cbn; constructor; [|exact IH].
  destruct (String.eqb (TrackingLink.id l) k); cbn;
    unfold same_but_active; cbn; repeat split.
  - now rewrite andb_false_r.
  - now rewrite andb_true_r.
Qed.

Lemma retired_twice k ls : retired k (retired k ls) = retired k ls.
Proof.
  unfold retired. rewrite map_map. apply map_ext. intros l.
  destruct (String.eqb (TrackingLink.id l) k) eqn:Heq; cbn;
    now rewrite Heq.
Qed.

(** X6. [deleteLink] never throws, not even for an identifier no link
    has; it keeps every visit and every column of every link except the
    active flag, which it clears exactly on the rows with the given
    identifier; doing it twice is the same as doing it once. *)
Theorem deleteLink_only_retires (k : string) (w : World) :
  let w' := snd (deleteLink k w) in
  fst (deleteLink k w) = inr tt
  /\ visitors (db w') = visitors (db w)
  /\ fetch_log w' = fetch_log w
  /\ Forall2 (fun l l' =>
                same_but_active l l'
                /\ TrackingLink.is_active l'
                   = TrackingLink.is_active l
                     && negb (String.eqb (TrackingLink.id l) k))
             (links (db w)) (links (db w'))
  /\ snd (deleteLink k w') = w'.
Proof.
  intros w'. subst w'.
  rewrite !deleteLink_eq. cbn [fst snd db links visitors fetch_log].
  split; [reflexivity|]. split; [reflexivity|]. split; [reflexivity|].
  split; [apply retired_related|].
  now rewrite retired_twice.
Qed.

Lemma find_link_retired k ls :
  find_link k (retired k ls) = option_map deactivate (find_link k ls).
Proof.
  unfold find_link. induction ls as [|l ls IH]; [reflexivity|].
  cbn. destruct (String.eqb (TrackingLink.id l) k) eqn:Heq; cbn;
    rewrite Heq; [reflexivity | exact IH].
Qed.

(** X7. After [deleteLink k], every valid tracking request for [k] is
    answered 404 and changes nothing, and no lookup by alias returns a
    link with identifier [k]. *)
Theorem deleted_link_rejects_tracking (k : string) (w : World) (env : Env)
    (request : TrackRequest) :
  trackVisitorSchema (body request) = true ->
  linkId (body request) = k ->
  let w' := snd (deleteLink k w) in
  track_POST env request w'
  = (inr (TrackError 404 "Link not found or inactive"), w')
  /\ forall a l, getLinkByAlias a w' = (inr (Some l), w') ->
                 TrackingLink.id l <> k.
Proof.
  intros Hvalid Hk w'. subst w'. rewrite deleteLink_eq. cbn [snd]. split.
  - rewrite track_POST_eq. cbv zeta. rewrite Hvalid, Hk. cbn [negb db links].
    rewrite find_link_retired.
    destruct (find_link k (links (db w))); reflexivity.
  - intros a l. unfold getLinkByAlias, bind, get_db, ret. cbn [db links].
    intros Hget. injection Hget as Hfind.
    apply find_some in Hfind. destruct Hfind as (Hin & Htest).
    apply andb_true_iff in Htest. destruct Htest as (_ & Hactive).
    unfold retired in Hin. apply in_map_iff in Hin.
    destruct Hin as (l0 & Hl & _).
    destruct (String.eqb (TrackingLink.id l0) k) eqn:Heq.
    + subst l. discriminate.
    + subst l. now apply String.eqb_neq.
Qed.

Lemma deleted_link_rejects_tracking_witness :
  track_POST sample_env (plain_request "L1") (snd (deleteLink "L1" visited_world))
  = (inr (TrackError 404 "Link not found or inactive"),
     snd (deleteLink "L1" visited_world)).
Proof.
  apply (deleted_link_rejects_tracking "L1" visited_world sample_env
           (plain_request "L1")); reflexivity.
Defined.

Lemma swept_related now ls :
  Forall2 (fun l l' =>
             same_but_active l l'
             /\ TrackingLink.is_active l'
                = TrackingLink.is_active l && negb (has_expired l now))
          ls (swept now ls).
Proof.
  induction ls as [|l ls IH]; cbn; constructor; [|exact IH].
  destruct (has_expired l now); cbn; unfold same_but_active; cbn;
    repeat split.
  - now rewrite andb_false_r.
  - now rewrite andb_true_r.
Qed.

Lemma swept_twice now ls : swept now (swept now ls) = swept now ls.
Proof.
  unfold swept. rewrite map_map. apply map_ext. intros l.
  destruct (has_expired l now) eqn:Hexp; [|now rewrite Hexp].
  unfold has_expired in *. cbn. now rewrite Hexp.
Qed.

(** X8. For dates of four-digit years, the sweep
    [cleanupExpiredLinks now] never throws; it keeps every visit and
    every column of every link except the active flag, which it clears
    exactly on the rows whose expiry is set and before [now]; sweeping
    twice at the same time is the same as sweeping once. *)
Theorem sweep_retires_exactly_expired (now : Z) (w : World) :
  four_digit_year now = true ->
  Forall (fun l => match TrackingLink.expires_at l with
                   | Some e => four_digit_year e = true
                   | None => True
                   end)
         (links (db w)) ->
  let w' := snd (cleanupExpiredLinks now w) in
  fst (cleanupExpiredLinks now w) = inr tt
  /\ visitors (db w') = visitors (db w)
  /\ Forall2 (fun l l' =>
                same_but_active l l'
                /\ TrackingLink.is_active l'
                   = TrackingLink.is_active l && negb (has_expired l now))
             (links (db w)) (links (db w'))
  /\ snd (cleanupExpiredLinks now w') = w'.
Proof.
  intros _ _ w'. subst w'.
  rewrite !cleanupExpiredLinks_eq. cbn [fst snd db links visitors fetch_log].
  split; [reflexivity|]. split; [reflexivity|].
  split; [apply swept_related|].
  now rewrite swept_twice.
Qed.

Lemma sweep_retires_exactly_expired_witness :
  map TrackingLink.is_active (links (db mixed_world)) = [true; false; true]
  /\ map TrackingLink.is_active
         (links (db (snd (cleanupExpiredLinks 1001 mixed_world))))
     = [true; false; false]
  /\ visitors (db (snd (cleanupExpiredLinks 1001 mixed_world)))
     = visitors (db mixed_world).
Proof.
  split; [reflexivity|]. split; [reflexivity|].
  apply (sweep_retires_exactly_expired 1001 mixed_world).
  - reflexivity.
  - repeat constructor.
Defined.



Lemma find_link_swept now k ls :
  find_link k (swept now ls)
  = option_map (fun l => if has_expired l now then deactivate l else l)
               (find_link k ls).
Proof.
  unfold find_link. induction ls as [|l ls IH]; [reflexivity|].
  cbn [swept map find].
  assert (Hid : TrackingLink.id (if has_expired l now then deactivate l else l)
                = TrackingLink.id l) by now destruct (has_expired l now).
  rewrite Hid. destruct (String.eqb (TrackingLink.id l) k); [reflexivity|].
  exact IH.
Qed.

(** X30. Once [GET /api/links] has run, a link whose expiry was before
    the time of its sweep is deactivated, so a valid tracking request for
    it is answered 404 (not found or inactive), no longer 410 (expired),
    and changes nothing. *)
Theorem swept_link_is_not_found (env1 env2 : Env) (alias : option string)
    (w : World) (request : TrackRequest) (link : TrackingLink) :
  find_link (linkId (body request)) (links (db w)) = Some link ->
  has_expired link (db_now env1) = true ->
  trackVisitorSchema (body request) = true ->
  let w' := snd (links_GET env1 alias w) in
  track_POST env2 request w'
  = (inr (TrackError 404 "Link not found or inactive"), w')
  /\ (TrackingLink.is_active link = true ->
      db_now env1 <= date_now env2 ->
      track_POST env2 request w
      = (inr (TrackError 410 "Link has expired"), w)).
Proof.
  intros Hfind Hexp Hvalid w'. subst w'. split.
  - rewrite links_GET_eq. cbn [snd].
    rewrite track_POST_eq. cbv zeta. rewrite Hvalid. cbn [negb db links].
    rewrite find_link_swept, Hfind. cbn [option_map]. now rewrite Hexp.
  - intros Hactive Hlater.
    rewrite track_POST_eq. cbv zeta. rewrite Hvalid, Hfind, Hactive.
    cbn [negb].
    assert (Hexp2 : has_expired link (date_now env2) = true).
    { unfold has_expired in *.
      destruct (TrackingLink.expires_at link) as [e|]; [|discriminate].
      apply Z.ltb_lt in Hexp. apply Z.ltb_lt. lia. }
    now rewrite Hexp2.
Qed.

Lemma swept_link_is_not_found_witness :
  track_POST sample_env (plain_request "L3")
    (snd (links_GET sample_env None mixed_world))
  = (inr (TrackError 404 "Link not found or inactive"),
     snd (links_GET sample_env None mixed_world)).
Proof.
  apply (swept_link_is_not_found sample_env sample_env None mixed_world
           (plain_request "L3") lapsed_link); reflexivity.
Defined.

(* ================================================================== *)
(** * Listings and statistics *)



Lemma strip_trailing_slash_snoc s : strip_trailing_slash (s ++ "/") = s.
Proof.
  induction s as [|c s IH]; [reflexivity|].
  cbn [append strip_trailing_slash]. rewrite IH.
  destruct (s ++ "/")%string eqn:Hs; [|reflexivity].
  destruct s; discriminate.
Qed.



(** X11. [getClickStats] returns for no argument and changes nothing: it
    throws on every call.  Its first statement is accepted, with one
    placeholder when a link identifier is given and with none otherwise,
    where the value that [.get(linkId)] passes is one too many.  Its
    second statement, whose result column is named [unique], is refused
    by the parser whatever the argument, so with a link identifier the
    call ends in a [SqliteError].  With a link identifier the third
    statement has two [WHERE] clauses and is refused as well. *)
Theorem statistics_statements_fail (linkId : option string) (w : World) :
  (exists e, getClickStats linkId w = (inl e, w)
             /\ (truthy_ostr linkId = true -> e = SqliteError))
  /\ prepare (clicksQuery linkId) w
     = (inr (mkStatement (clicksQuery linkId)
                         (if truthy_ostr linkId then 1 else 0)), w)
  /\ prepare (uniqueQuery linkId) w = (inl SqliteError, w)
  /\ count_sub (countriesQuery (Some "L1")) "WHERE" = 2%nat
  /\ prepare (countriesQuery (Some "L1")) w = (inl SqliteError, w).
Proof.
  split.
  - eexists. split; [apply getClickStats_throws|].
    unfold stats_failure. now intros ->.
  - unfold clicksQuery, uniqueQuery.
    destruct (truthy_ostr linkId); repeat split; reflexivity.
Qed.

Lemma statistics_statements_fail_witness :
  getClickStats (Some "L1") visited_world = (inl SqliteError, visited_world).
Proof.
  destruct (statistics_statements_fail (Some "L1") visited_world)
    as ((e & Hrun & Hclass) & _).
  rewrite Hrun. now rewrite (Hclass eq_refl).
Defined.

(** X13. [getVisitorsByLinkId k] never throws and changes nothing; it
    returns exactly the visits of link [k], each once, newest first. *)
Theorem visits_of_link_newest_first (k : string) (w : World) :
  exists vs,
    getVisitorsByLinkId k w = (inr vs, w)
    /\ StronglySorted newer_first vs
    /\ Permutation vs
         (filter (fun v => String.eqb (Visitor.link_id v) k)
                 (visitors (db w)))
    /\ (forall v, In v vs <-> In v (visitors (db w)) /\ Visitor.link_id v = k)
    /\ length vs = visits_of k (visitors (db w)).
Proof.
  eexists. split; [reflexivity|].
  set (rows := filter _ (visitors (db w))).
  pose proof (order_by_visited_at_desc_perm rows) as Hperm.
  split; [apply order_by_visited_at_desc_sorted|].
  split; [exact Hperm|]. split.
  - intros v. split.
    + intros Hin. apply (Permutation_in _ Hperm) in Hin.
      apply filter_In in Hin. destruct Hin as (Hin & Heq).
      now apply String.eqb_eq in Heq.
    + intros (Hin & Heq).
      apply (Permutation_in _ (Permutation_sym Hperm)).
      apply filter_In. split; [exact Hin|]. now apply String.eqb_eq.
  - now rewrite (Permutation_length Hperm).
Qed.

Lemma visits_of_link_newest_first_witness :
  exists vs,
    getVisitorsByLinkId "L1" busy_world = (inr vs, busy_world)
    /\ length vs = 21%nat.
Proof.
  destruct (visits_of_link_newest_first "L1" busy_world)
    as (vs & Hrun & _ & _ & _ & Hlen).
  exists vs. split; [exact Hrun|]. rewrite Hlen. reflexivity.
Defined.

(** X14. [getVisitorsByDateRange] throws a range error, and reads
    nothing, when either date is invalid.  With two dates of four-digit
    years, over visits stamped in such years, it returns exactly the
    visits whose timestamp lies between the two, both ends included,
    newest first; a start after the end gives no visit. *)
Theorem visits_in_date_range (startDate endDate : option Z) (w : World) :
  Forall (fun v => four_digit_year (Visitor.visited_at v) = true)
         (visitors (db w)) ->
  (startDate = None \/ endDate = None ->
   getVisitorsByDateRange startDate endDate w = (inl RangeError, w))
  /\ forall s e, startDate = Some s -> endDate = Some e ->
       four_digit_year s = true -> four_digit_year e = true ->
       exists vs,
         getVisitorsByDateRange startDate endDate w = (inr vs, w)
         /\ StronglySorted newer_first vs
         /\ (forall v, In v vs <->
               In v (visitors (db w))
               /\ s <= Visitor.visited_at v <= e)
         /\ (e < s -> vs = []).
Proof.
  intros _. split.
  - intros [-> | ->]; [reflexivity|]. now destruct startDate.
  - intros s e -> -> _ _. eexists. split; [reflexivity|].
    set (rows := filter _ (visitors (db w))).
    pose proof (order_by_visited_at_desc_perm rows) as Hperm.
    assert (Hrows : forall v, In v rows <->
                      In v (visitors (db w))
                      /\ s <= Visitor.visited_at v <= e).
    { intros v. subst rows. rewrite filter_In, andb_true_iff.
      rewrite !Z.leb_le. tauto. }
    split; [apply order_by_visited_at_desc_sorted|]. split.
    + intros v. rewrite <- Hrows. split; intros Hin.
      * now apply (Permutation_in _ Hperm).
      * now apply (Permutation_in _ (Permutation_sym Hperm)).
    + intros Hlt.
      assert (Hnil : rows = []).
      { destruct rows as [|v rows']; [reflexivity|]. exfalso.
        assert (Hin : In v (v :: rows')) by now left.
        apply Hrows in Hin. lia. }
      now rewrite Hnil.
Qed.

Lemma visits_in_date_range_witness :
  getVisitorsByDateRange None (Some 5) visited_world
  = (inl RangeError, visited_world)
  /\ exists vs,
       getVisitorsByDateRange (Some 1000) (Some 1001) visited_world
       = (inr vs, visited_world)
       /\ map Visitor.visited_at vs = [1001].
Proof.
  assert (Hrange : Forall (fun v => four_digit_year (Visitor.visited_at v)
                                    = true)
                          (visitors (db visited_world)))
    by (repeat constructor).
  split.
  - destruct (visits_in_date_range None (Some 5) visited_world Hrange)
      as (Hbad & _).
    apply Hbad. now left.
  - destruct (visits_in_date_range (Some 1000) (Some 1001) visited_world
                Hrange) as (_ & Hok).
    destruct (Hok 1000 1001 eq_refl eq_refl eq_refl eq_refl)
      as (vs & Hrun & _).
    exists vs. split; [exact Hrun|].
    injection Hrun as <-. reflexivity.
Defined.

(* ================================================================== *)
(** * What a handler leaves alone *)

(** X15. [POST /api/track] always answers (no exception leaves the
    handler), and an error answer has status 400, 404, 410 or 500 and
    leaves both tables as they were; unless the status is 500 no external
    call was made either. *)
Theorem failed_tracking_changes_nothing (env : Env) (request : TrackRequest)
    (w : World) :
  exists response w',
    track_POST env request w = (inr response, w')
    /\ forall status error, response = TrackError status error ->
         db w' = db w
         /\ (status = 400 \/ status = 404 \/ status = 410 \/ status = 500)
         /\ (status <> 500 -> w' = w).
Proof.
  rewrite track_POST_eq. cbv zeta.
  destruct (trackVisitorSchema (body request)); cbn [negb].
  2:{ do 2 eexists. split; [reflexivity|].
      intros status error [= <- _]. repeat split; auto. }
  destruct (find_link _ _) as [link|].
  2:{ do 2 eexists. split; [reflexivity|].
      intros status error [= <- _]. repeat split; auto. }
  destruct (TrackingLink.is_active link); cbn [negb].
  2:{ do 2 eexists. split; [reflexivity|].
      intros status error [= <- _]. repeat split; auto. }
  destruct (has_expired link (date_now env)).
  { do 2 eexists. split; [reflexivity|].
    intros status error [= <- _]. repeat split; auto. }
  destruct (id_taken _ _).
  - do 2 eexists. split; [reflexivity|].
    intros status error [= <- _]. split; [reflexivity|].
    split; [auto | congruence].
  - do 2 eexists. split; [reflexivity|]. discriminate.
Qed.

Lemma failed_tracking_changes_nothing_witness :
  exists w',
    track_POST sample_env (plain_request "L2") mixed_world
    = (inr (TrackError 404 "Link not found or inactive"), w')
    /\ db w' = db mixed_world.
Proof.
  destruct (failed_tracking_changes_nothing sample_env (plain_request "L2")
              mixed_world) as (response & w' & Hrun & Herr).
  exists w'.
  assert (Hresp : response = TrackError 404 "Link not found or inactive")
    by (injection Hrun as <- _; reflexivity).
  split; [now rewrite <- Hresp|].
  now destruct (Herr _ _ Hresp).
Defined.

(** X16. [POST /api/links] always answers, and an error answer, of status
    400 or 500, leaves the world as it was. *)
Theorem failed_creation_changes_nothing (isUrl : string -> bool) (env : Env)
    (b : CreateLinkBody) (w : World) :
  exists response w',
    links_POST isUrl env b w = (inr response, w')
    /\ forall status error, response = LinkError status error ->
         w' = w /\ (status = 400 \/ status = 500).
Proof.
  rewrite links_POST_eq.
  destruct (createLinkSchema isUrl b); cbn [negb].
  2:{ do 2 eexists. split; [reflexivity|].
      intros status error [= <- _]. auto. }
  destruct (find_active _ _).
  { do 2 eexists. split; [reflexivity|].
    intros status error [= <- _]. auto. }
  destruct (insert_clash _ _ _).
  - do 2 eexists. split; [reflexivity|].
    intros status error [= <- _]. auto.
  - do 2 eexists. split; [reflexivity|]. discriminate.
Qed.

Lemma failed_creation_changes_nothing_witness :
  exists response,
    links_POST always_url second_env promo_body promo_world
    = (inr response, promo_world)
    /\ response
       = LinkError 400 "Alias already exists. Please choose a different one.".
Proof.
  destruct (failed_creation_changes_nothing always_url second_env promo_body
              promo_world) as (response & w' & Hrun & Herr).
  exists response.
  assert (Hresp : response
            = LinkError 400
                "Alias already exists. Please choose a different one.")
    by (injection Hrun as <- _; reflexivity).
  destruct (Herr _ _ Hresp) as (Hw & _).
  split; [rewrite Hw in Hrun; exact Hrun | exact Hresp].
Defined.

(** X17. [GET /api/analytics] always answers and never changes the
    world: no exception leaves the handler, neither table is written and
    nothing is fetched.  Its answer is the 500 "Internal server error" of
    its [catch], whatever the query and the store; no answer carries
    analytics. *)
Theorem analytics_is_read_only (env : Env) (query : AnalyticsQuery)
    (w : World) :
  exists response,
    analytics_GET env query w = (inr response, w)
    /\ response = AnalyticsError 500 "Internal server error"
    /\ forall a, response <> AnalyticsOk a.
Proof.
  rewrite analytics_GET_eq. eexists. split; [reflexivity|].
  split; [reflexivity | discriminate].
Qed.

(** X18. Every point of the analytics map has a non-zero latitude and a
    non-zero longitude, taken from one of the visits; and for visits read
    from a store the application can reach, the map has one point for
    each visit with both coordinates stored, so a visit located at zero
    degrees, stored without coordinates, is not on it. *)
Theorem map_points_have_a_fix (vs : list Visitor) :
  (forall p, In p (visitorCoordinates vs) ->
     ~ (mp_lat p == 0)%Q /\ ~ (mp_lng p == 0)%Q
     /\ exists v, In v vs /\ Visitor.id v = mp_id p
                  /\ Visitor.latitude v = Some (mp_lat p)
                  /\ Visitor.longitude v = Some (mp_lng p))
  /\ (forall w, reachable w ->
        (forall v, In v vs -> In v (visitors (db w))) ->
        map mp_id (visitorCoordinates vs)
        = map Visitor.id (filter has_fix vs)).
Proof.
  split.
  - intros p Hin. unfold visitorCoordinates in Hin.
    apply in_flat_map in Hin. destruct Hin as (v & Hv & Hp).
    destruct (Visitor.latitude v) as [la|] eqn:Hla; [|destruct Hp].
    destruct (Visitor.longitude v) as [lo|] eqn:Hlo; [|destruct Hp].
    unfold truthy_num in Hp.
    destruct (Qeq_bool la 0) eqn:E1; [destruct Hp|].
    destruct (Qeq_bool lo 0) eqn:E2; [destruct Hp|].
    destruct Hp as [<- | []]. cbn [mp_lat mp_lng mp_id].
    split; [intros H; apply Qeq_bool_iff in H; congruence|].
    split; [intros H; apply Qeq_bool_iff in H; congruence|].
    exists v. auto.
  - intros w Hreach Hsub.
    pose proof (reachable_invariant w Hreach) as (_ & _ & Hclean).
    rewrite Forall_forall in Hclean.
    assert (Hvs : Forall clean_visit vs).
    { apply Forall_forall. intros v Hv. now apply Hclean, Hsub. }
    clear Hsub Hclean. unfold has_fix.
    induction Hvs as [|v vs Hv _ IH]; [reflexivity|].
    cbn [visitorCoordinates flat_map filter].
    fold (visitorCoordinates vs). rewrite map_app, IH.
    destruct Hv as (Hla & Hlo & _).
    destruct (Visitor.latitude v) as [la|]; [|reflexivity].
    destruct (Visitor.longitude v) as [lo|]; [|reflexivity].
    cbn in Hla, Hlo. unfold truthy_num.
    destruct (Qeq_bool la 0) eqn:E1; [apply Qeq_bool_iff in E1; tauto|].
    destruct (Qeq_bool lo 0) eqn:E2; [apply Qeq_bool_iff in E2; tauto|].
    reflexivity.
Qed.

Lemma map_points_have_a_fix_witness :
  map mp_id (visitorCoordinates (visitors (db visited_world))) = ["v-1"].
Proof.
  destruct (map_points_have_a_fix (visitors (db visited_world))) as (_ & Hmap).
  rewrite (Hmap visited_world visited_world_reachable (fun v H => H)).
  reflexivity.
Defined.

(* ================================================================== *)
(** * The client address and the classifiers *)

Lemma no_address_unknown h : no_address h -> getClientIP h = "unknown".
Proof.
  intros (Hf & Hr & Ha). unfold getClientIP.
  assert (Hrest : or_str (x_real_ip h) (or_str (remote_addr h) "unknown")
                  = "unknown").
  { unfold or_str, truthy_ostr in *.
    destruct (x_real_ip h) as [r|]; [rewrite Hr|];
      (destruct (remote_addr h) as [a|]; [now rewrite Ha | reflexivity]). }
  unfold truthy_ostr in Hf.
  destruct (x_forwarded_for h) as [f|]; [now rewrite Hf | exact Hrest].
Qed.

(** X19. A request that carries no address in [x-forwarded-for],
    [x-real-ip] or [remote-addr] is given the address "unknown", which
    the resolver treats as local: on a live link, without a device
    latitude or without a device longitude, the visit is recorded with no
    external call, with country Local and city Local Development, and the
    zero coordinates of the local sentinel are stored as missing. *)
Theorem anonymous_request_is_local (env : Env) (request : TrackRequest)
    (w : World) (link : TrackingLink) :
  live env request w link ->
  no_address (headers request) ->
  latitude (body request) = None \/ longitude (body request) = None ->
  getClientIP (headers request) = "unknown"
  /\ exists view w' row,
       track_POST env request w = (inr (TrackOk view), w')
       /\ fetch_log w' = fetch_log w
       /\ visitors (db w') = visitors (db w) ++ [row]
       /\ Visitor.ip_address row = "unknown"
       /\ Visitor.country row = Some "Local"
       /\ Visitor.city row = Some "Local Development"
       /\ (latitude (body request) = None -> Visitor.latitude row = None)
       /\ (longitude (body request) = None -> Visitor.longitude row = None).
Proof.
  intros Hlive Hanon Hmissing.
  pose proof (no_address_unknown _ Hanon) as Hip.
  split; [exact Hip|].
  assert (Hneeds : needs_ip_location (body request) = true).
  { unfold needs_ip_location. destruct Hmissing as [-> | ->]; cbn;
      now rewrite ?orb_true_r. }
  do 3 eexists. split; [apply (track_POST_live _ _ _ _ Hlive)|].
  cbn [db visitors fetch_log].
  unfold track_lookups, visitor_row, tracked_data, located.
  rewrite Hneeds, Hip.
  cbn [lookups is_local_ip String.eqb orb resolved local_location
       Visitor.ip_address Visitor.country Visitor.city Visitor.latitude
       Visitor.longitude vd_ip_address vd_country vd_city vd_latitude
       vd_longitude loc_country loc_city loc_latitude loc_longitude].
  split; [now rewrite app_nil_r|].
  split; [reflexivity|]. split; [reflexivity|].
  split; [reflexivity|]. split; [reflexivity|].
  split; intros ->; reflexivity.
Qed.

Lemma anonymous_request_is_local_witness :
  exists view w',
    track_POST sample_env anonymous_request promo_world
    = (inr (TrackOk view), w')
    /\ fetch_log w' = [].
Proof.
  destruct (anonymous_request_is_local sample_env anonymous_request
              promo_world promo_link)
    as (_ & view & w' & row & Hrun & Hlog & _).
  - repeat split.
  - repeat split.
  - now left.
  - exists view, w'. split; assumption.
Defined.

Lemma includes_char s c : includes s (String c "") = has_char c s.
Proof.
  induction s as [|c' s IH]; [reflexivity|].
  cbn [includes has_char String.prefix].
  destruct (ascii_dec c c') as [<- | Hne].
  - destruct s; cbn; now rewrite Ascii.eqb_refl.
  - rewrite IH. destruct (Ascii.eqb c' c) eqn:Heq; [|reflexivity].
    apply Ascii.eqb_eq in Heq. congruence.
Qed.

Lemma split_comma_first_no_comma s :
  has_char ","%char (split_comma_first s) = false.
Proof.
  induction s as [|c s IH]; [reflexivity|]. cbn.
  destruct (Ascii.eqb c ","%char) eqn:Heq; [reflexivity|].
  cbn. now rewrite Heq.
Qed.

Lemma trimStart_no_char c s : has_char c s = false -> has_char c (trimStart s) = false.
Proof.
  induction s as [|c' s IH]; [reflexivity|]. cbn [trimStart].
  destruct (is_space c'); [|auto]. cbn [has_char].
  intros H. apply orb_false_iff in H. now apply IH.
Qed.

Lemma trimEnd_no_char c s : has_char c s = false -> has_char c (trimEnd s) = false.
Proof.
  induction s as [|c' s IH]; [reflexivity|]. cbn [trimEnd has_char].
  intros H. apply orb_false_iff in H. destruct H as (Hc & Hs).
  specialize (IH Hs).
  destruct (trimEnd s) as [|c2 t].
  - destruct (is_space c'); [reflexivity|]. cbn. now rewrite Hc.
  - cbn [has_char] in *. now rewrite Hc.
Qed.

Lemma trimStart_first c s :
  first_char (trimStart s) = Some c -> is_space c = false.
Proof.
  induction s as [|c' s IH]; [discriminate|]. cbn [trimStart].
  destruct (is_space c') eqn:Hsp; [exact IH|].
  cbn. intros [= <-]. exact Hsp.
Qed.

Lemma trimEnd_first c s :
  first_char (trimEnd s) = Some c -> first_char s = Some c.
Proof.
  destruct s as [|c' s]; [discriminate|]. cbn [trimEnd].
  destruct (trimEnd s).
  - destruct (is_space c'); [discriminate | auto].
  - auto.
Qed.

Lemma trimEnd_last c s :
  last_char (trimEnd s) = Some c -> is_space c = false.
Proof.
  induction s as [|c' s IH]; [discriminate|]. cbn [trimEnd].
  destruct (trimEnd s) as [|c2 t].
  - destruct (is_space c') eqn:Hsp; [discriminate|].
    cbn. intros [= <-]. exact Hsp.
  - exact IH.
Qed.

(** X20. When [x-forwarded-for] is present and not empty, the client
    address is its first comma-separated entry with the surrounding white
    space removed, whatever the other headers say: it contains no comma
    and neither starts nor ends with a white-space character. *)
Theorem forwarded_address_is_first_entry (h : Headers) (f : string) :
  x_forwarded_for h = Some f -> f <> "" ->
  let ip := getClientIP h in
  ip = trim (split_comma_first f)
  /\ includes ip "," = false
  /\ (forall c, first_char ip = Some c -> is_space c = false)
  /\ (forall c, last_char ip = Some c -> is_space c = false).
Proof.
  intros Hf Hne ip.
  assert (Hip : ip = trim (split_comma_first f)).
  { subst ip. unfold getClientIP. rewrite Hf.
    destruct f; [contradiction | reflexivity]. }
  split; [exact Hip|]. rewrite Hip. unfold trim.
  split; [|split].
  - rewrite includes_char.
    apply trimEnd_no_char, trimStart_no_char, split_comma_first_no_comma.
  - intros c Hc. apply trimEnd_first in Hc. now apply trimStart_first in Hc.
  - intros c. apply trimEnd_last.
Qed.

Lemma forwarded_address_is_first_entry_witness :
  getClientIP proxied_headers = "203.0.113.7".
Proof.
  destruct (forwarded_address_is_first_entry proxied_headers
              "  203.0.113.7 , 10.0.0.1" eq_refl) as (Hip & _).
  - discriminate.
  - rewrite Hip. reflexivity.
Defined.

Lemma prefix_lower m s :
  String.prefix m s = true ->
  String.prefix (toLowerCase m) (toLowerCase s) = true.
Proof.
  revert s. induction m as [|a m IH]; intros s;
    [intros _; destruct s; reflexivity|].
  destruct s as [|b s]; [discriminate|]. cbn [String.prefix toLowerCase].
  destruct (ascii_dec a b) as [<- | _]; [|discriminate].
  intros Hp. destruct (ascii_dec (lower_char a) (lower_char a)); [|congruence].
  now apply IH.
Qed.

Lemma includes_lower s m :
  includes s m = true -> includes (toLowerCase s) (toLowerCase m) = true.
Proof.
  induction s as [|c s IH]; cbn [includes toLowerCase].
  - destruct (String.prefix m "") eqn:Hp; [|discriminate].
    intros _. apply prefix_lower in Hp. cbn [toLowerCase] in Hp.
    now rewrite Hp.
  - destruct (String.prefix m (String c s)) eqn:Hp.
    + intros _. apply prefix_lower in Hp. cbn [toLowerCase] in Hp.
      now rewrite Hp.
    + intros Hin. rewrite (IH Hin).
      now destruct (String.prefix (toLowerCase m) _).
Qed.

(** X21. The device markers are matched without regard to case, and the
    mobile markers come first: a user agent that contains mobile, android
    or iphone in any spelling is classified Mobile, whatever else it
    contains (a tablet or ipad marker included). *)
Theorem mobile_marker_in_any_case (userAgent m : string) :
  includes userAgent m = true ->
  toLowerCase m = "mobile" \/ toLowerCase m = "android"
  \/ toLowerCase m = "iphone" ->
  dev_device (parseUserAgent userAgent) = "Mobile".
Proof.
  intros Hin Hm. apply includes_lower in Hin.
  unfold parseUserAgent, classify_device. cbn [dev_device].
  destruct Hm as [Hm | [Hm | Hm]]; rewrite Hm in Hin; rewrite Hin;
    now rewrite ?orb_true_r.
Qed.

Lemma mobile_marker_in_any_case_witness :
  dev_device
    (parseUserAgent
       "Mozilla/5.0 (iPad; CPU OS 13_3 like Mac OS X) Mobile/15E148 Safari")
  = "Mobile".
Proof.
  apply (mobile_marker_in_any_case _ "Mobile"); [reflexivity | now left].
Defined.

(** X29. A user agent is classified Opera only when it carries the opera
    or opr marker and none of the chrome, firefox, safari and edg
    markers; so a user agent that names Chrome or Safari next to OPR is
    not classified Opera. *)
Theorem opera_needs_bare_marker (userAgent : string) :
  let ua := toLowerCase userAgent in
  dev_browser (parseUserAgent userAgent) = "Opera"
  <-> (includes ua "opera" = true \/ includes ua "opr" = true)
      /\ includes ua "chrome" = false /\ includes ua "firefox" = false
      /\ includes ua "safari" = false /\ includes ua "edg" = false.
Proof.
  intros ua. unfold parseUserAgent, classify_browser. cbn [dev_browser].
  fold ua.
  destruct (includes ua "chrome"), (includes ua "edg"),
    (includes ua "firefox"), (includes ua "safari"),
    (includes ua "opera"), (includes ua "opr"); cbn;
    split; try discriminate; try tauto; intuition discriminate.
Qed.

Lemma opera_needs_bare_marker_witness :
  dev_browser
    (parseUserAgent "Mozilla/5.0 Chrome/120.0.0.0 Safari/537.36 OPR/106.0")
  <> "Opera".
Proof.
  intros Hopera.
  apply (opera_needs_bare_marker
           "Mozilla/5.0 Chrome/120.0.0.0 Safari/537.36 OPR/106.0") in Hopera.
  destruct Hopera as (_ & Hchrome & _). discriminate.
Defined.

(** X22. [isValidCoordinates] holds exactly when neither argument is
    [undefined] and the numbers they stand for lie in [-90, 90] and
    [-180, 180], where [null] stands for 0; zero is as valid as any other
    value.  Hence device coordinates that pass the tracking schema, when
    both are supplied, are valid, a missing one is not, and the two empty
    coordinates of a stored visit are. *)
Theorem valid_coordinates_are_in_range (lat lon : coordinate) :
  (isValidCoordinates lat lon = true <->
   exists la lo, ToNumber lat = Some la /\ ToNumber lon = Some lo
     /\ (-90 <= la)%Q /\ (la <= 90)%Q /\ (-180 <= lo)%Q /\ (lo <= 180)%Q)
  /\ (lat = Undefined \/ lon = Undefined -> isValidCoordinates lat lon = false)
  /\ (forall b, trackVisitorSchema b = true ->
        of_body (latitude b) = lat -> of_body (longitude b) = lon ->
        isValidCoordinates lat lon
        = match latitude b, longitude b with
          | Some _, Some _ => true
          | _, _ => false
          end)
  /\ isValidCoordinates (of_row None) (of_row None) = true.
Proof.
  assert (Hiff : isValidCoordinates lat lon = true <->
    exists la lo, ToNumber lat = Some la /\ ToNumber lon = Some lo
      /\ (-90 <= la)%Q /\ (la <= 90)%Q /\ (-180 <= lo)%Q /\ (lo <= 180)%Q).
  { unfold isValidCoordinates. split.
    - destruct lat as [| |la]; [discriminate| |];
        (destruct lon as [| |lo]; [discriminate| |]);
        cbn [is_undefined orb ToNumber number_le];
        rewrite !andb_true_iff, !Qle_bool_iff;
        intros (((H1 & H2) & H3) & H4); do 2 eexists; auto 10.
    - intros (la & lo & Hla & Hlo & H1 & H2 & H3 & H4).
      destruct lat as [| |x]; [discriminate| |];
        (destruct lon as [| |y]; [discriminate| |]);
        cbn [is_undefined orb ToNumber number_le] in *;
        injection Hla as <-; injection Hlo as <-;
        rewrite !andb_true_iff, !Qle_bool_iff; auto. }
  split; [exact Hiff|]. split; [|split; [|reflexivity]].
  - unfold isValidCoordinates. intros [-> | ->]; [reflexivity|].
    now rewrite orb_true_r.
  - intros b Hvalid Hlat Hlon.
    unfold trackVisitorSchema in Hvalid.
    rewrite !andb_true_iff in Hvalid. destruct Hvalid as ((_ & H1) & H2).
    destruct (latitude b) as [la|]; cbn [of_body] in Hlat; subst lat;
      [|reflexivity].
    destruct (longitude b) as [lo|]; cbn [of_body] in Hlon; subst lon;
      [|reflexivity].
    apply Hiff. unfold in_range in H1, H2.
    rewrite andb_true_iff, !Qle_bool_iff in H1, H2.
    exists la, lo. cbn [ToNumber]. tauto.
Qed.

Lemma valid_coordinates_are_in_range_witness :
  isValidCoordinates (Coordinate 0%Q) (Coordinate 10%Q) = true
  /\ isValidCoordinates (Coordinate 0%Q) Undefined = false.
Proof.
  split.
  - destruct (valid_coordinates_are_in_range (Coordinate 0%Q)
                (Coordinate 10%Q)) as (_ & _ & Hschema & _).
    exact (Hschema (body equator_request) eq_refl eq_refl eq_refl).
  - destruct (valid_coordinates_are_in_range (Coordinate 0%Q) Undefined)
      as (_ & Hmissing & _).
    apply Hmissing. now right.
Defined.

(** X23. [formatLocationString] never returns an empty text: it joins
    city and country when both are present and not empty, returns the one
    that is, and Unknown Location when neither is. *)
Theorem location_string_is_never_empty (country city : option string) :
  formatLocationString country city <> ""
  /\ (truthy_ostr country = false -> truthy_ostr city = false ->
      formatLocationString country city = "Unknown Location")
  /\ (forall c y, country = Some c -> city = Some y -> c <> "" -> y <> "" ->
        formatLocationString country city = (y ++ ", " ++ c)%string).
Proof.
  unfold formatLocationString. split; [|split].
  - destruct country as [[|a c]|], city as [[|b y]|]; cbn; discriminate.
  - now intros -> ->.
  - intros c y -> -> Hc Hy.
    destruct c; [contradiction|]. destruct y; [contradiction|]. reflexivity.
Qed.

Lemma location_string_is_never_empty_witness :
  formatLocationString (Some "Local") (Some "Local Development")
  = "Local Development, Local".
Proof.
  destruct (location_string_is_never_empty (Some "Local")
              (Some "Local Development")) as (_ & _ & Hboth).
  apply (Hboth "Local" "Local Development"); try reflexivity; discriminate.
Defined.

Lemma strip_trailing_slash_none s :
  last_char s <> Some "/"%char -> strip_trailing_slash s = s.
Proof.
  induction s as [|c s IH]; [reflexivity|].
  cbn [last_char strip_trailing_slash]. destruct s as [|c' s'].
  - intros Hlast. destruct (Ascii.eqb c "/"%char) eqn:Heq; [|reflexivity].
    apply Ascii.eqb_eq in Heq. congruence.
  - intros Hlast. now rewrite IH.
Qed.

(** X24. [generateTrackingUrl] appends /link/ and the alias to the base
    URL after removing one trailing slash from it, so a base with and
    without the slash give the same URL; and the tracking URL that
    [POST /api/links] answers is the one it gives for the base
    http://localhost:3000. *)
Theorem tracking_url_ignores_trailing_slash (baseUrl alias : string) :
  generateTrackingUrl (baseUrl ++ "/") alias
  = (baseUrl ++ "/link/" ++ alias)%string
  /\ (last_char baseUrl <> Some "/"%char ->
      generateTrackingUrl baseUrl alias
      = generateTrackingUrl (baseUrl ++ "/") alias)
  /\ (forall isUrl env b w link url w',
        links_POST isUrl env b w = (inr (LinkCreated link url), w') ->
        cl_alias b = alias ->
        url = generateTrackingUrl "http://localhost:3000" alias).
Proof.
  unfold generateTrackingUrl. cbv zeta. rewrite strip_trailing_slash_snoc.
  split; [reflexivity|]. split.
  - intros Hlast. now rewrite strip_trailing_slash_none.
  - intros isUrl env b w link url w'. rewrite links_POST_eq.
    destruct (createLinkSchema isUrl b); cbn [negb]; [|discriminate].
    destruct (find_active _ _); [discriminate|].
    destruct (insert_clash _ _ _); [discriminate|].
    intros [= _ <- _] <-. reflexivity.
Qed.

Lemma tracking_url_ignores_trailing_slash_witness :
  generateTrackingUrl "https://trk.example" "promo"
  = "https://trk.example/link/promo".
Proof.
  destruct (tracking_url_ignores_trailing_slash "https://trk.example" "promo")
    as (Hwith & Hsame & _).
  rewrite Hsame by discriminate. exact Hwith.
Defined.

(** X25. For an address that is not local, when the lookup answers with a
    success status and a JSON object, the resolver makes exactly one
    external call, to [lookup_url ip], and returns the four
    fields of the answer, a zero coordinate or an empty name counting as
    missing. *)
Theorem successful_lookup_is_parsed (env : Env) (ip : string) (w : World)
    (status : Z) (lat lon : option Q) (country_name city : option string) :
  is_local_ip ip = false ->
  fetch env (lookup_url ip)
  = Responded (mkResponse status
                 (Some (JObject lat lon country_name city))) ->
  200 <= status <= 299 ->
  getLocationFromIP env ip w
  = (inr (mkLocation (or_null_num lat) (or_null_num lon)
                     (or_null_str country_name) (or_null_str city)
                     (Some ip)),
     mkWorld (db w) (fetch_log w ++ [lookup_url ip]))
  /\ stored_num (or_null_num lat) /\ stored_num (or_null_num lon)
  /\ stored_str (or_null_str country_name) /\ stored_str (or_null_str city).
Proof.
  intros Hlocal Hfetch Hstatus.
  split.
  - rewrite getLocationFromIP_eq. unfold resolved, lookups, log_more.
    rewrite Hlocal, Hfetch. unfold lookup_failed, response_ok.
    cbn [resp_status resp_body parsed_location].
    assert (H1 : (200 <=? status) = true) by (apply Z.leb_le; lia).
    assert (H2 : (status <=? 299) = true) by (apply Z.leb_le; lia).
    now rewrite H1, H2.
  - repeat split; first [apply or_null_num_stored | apply or_null_str_stored].
Qed.

Lemma successful_lookup_is_parsed_witness :
  getLocationFromIP sample_env "8.8.8.8" empty_world
  = (inr (mkLocation (Some (374 # 10)) (Some (- (1220 # 10))%Q)
                     (Some "United States") (Some "Mountain View")
                     (Some "8.8.8.8")),
     mkWorld (db empty_world) ["https://ipapi.co/8.8.8.8/json/"]).
Proof.
  apply (successful_lookup_is_parsed sample_env "8.8.8.8" empty_world 200
           (Some (374 # 10)) (Some (- (1220 # 10))%Q)
           (Some "United States") (Some "Mountain View"));
    [reflexivity | reflexivity | lia].
Defined.

(* ================================================================== *)
(** * The QR code handlers *)

Section QrFacts.

Variable isUrl : string -> bool.
Variable toDataURL : string -> number -> number -> option string.
Variable toBuffer : string -> number -> number -> option string.

(** X26. The two QR code handlers report the same bad input differently:
    input that the schema refuses (a text that is no URL, an unknown
    format, a size outside 100..1000 or a margin outside 0..10) is
    answered 400 by POST but 500 by GET; GET answers 400 only when the
    [url] parameter is missing or empty. *)
Theorem qr_bad_input_400_or_500 (url format : string) (size margin : number) :
  isUrl url && is_format format
  && number_between 100 1000 size && number_between 0 10 margin = false ->
  qrcode_POST isUrl toDataURL toBuffer
    (mkQrBody url (Some format) (Some size) (Some margin))
  = QrError 400 "Validation failed"
  /\ (forall q,
        qq_url q = Some url -> url <> "" ->
        or_str (qq_format q) "png" = format ->
        parseInt (or_str (qq_size q) "256") = size ->
        parseInt (or_str (qq_margin q) "2") = margin ->
        qrcode_GET isUrl toDataURL toBuffer q
        = QrError 500 "Failed to generate QR code")
  /\ (forall q,
        truthy_ostr (qq_url q) = false ->
        qrcode_GET isUrl toDataURL toBuffer q
        = QrError 400 "URL parameter is required").
Proof.
  intros Hbad. split; [|split].
  - unfold qrcode_POST, qrCodeSchema_parse. cbn [qr_url qr_format qr_size qr_margin].
    now rewrite Hbad.
  - intros q Hurl Hne Hformat Hsize Hmargin.
    unfold qrcode_GET, qrCodeSchema_parse. cbv zeta.
    rewrite Hurl, Hformat, Hsize, Hmargin.
    destruct url; [contradiction|]. cbn [truthy_ostr truthy_str negb or_str].
    now rewrite Hbad.
  - intros q Hurl. unfold qrcode_GET. cbv zeta. now rewrite Hurl.
Qed.

(** X27. The format svg passes the schema but neither handler produces
    it: with an otherwise valid input both answer 400, whatever the
    library would return; and with a valid input and the format png (the
    default) or dataurl, GET answers the library's image for the
    requested text, size and margin, or 500 when the library throws. *)
Theorem qr_formats (url : string) (size margin : number) :
  isUrl url = true -> url <> "" ->
  number_between 100 1000 size = true ->
  number_between 0 10 margin = true ->
  forall q,
    qq_url q = Some url ->
    parseInt (or_str (qq_size q) "256") = size ->
    parseInt (or_str (qq_margin q) "2") = margin ->
    (qq_format q = Some "svg" ->
     qrcode_GET isUrl toDataURL toBuffer q = QrError 400 "Unsupported format"
     /\ qrcode_POST isUrl toDataURL toBuffer
          (mkQrBody url (Some "svg") (Some size) (Some margin))
        = QrError 400 "SVG format not supported in this endpoint")
    /\ (qq_format q = Some "dataurl" ->
        qrcode_GET isUrl toDataURL toBuffer q
        = match toDataURL url size margin with
          | Some dataUrl => QrDataUrl dataUrl
          | None => QrError 500 "Failed to generate QR code"
          end)
    /\ (truthy_ostr (qq_format q) = false \/ qq_format q = Some "png" ->
        qrcode_GET isUrl toDataURL toBuffer q
        = match toBuffer url size margin with
          | Some buffer => QrImage buffer
          | None => QrError 500 "Failed to generate QR code"
          end).
Proof.
  intros Hurl Hne Hsize Hmargin q Hq Hs Hm.
  assert (Hget : forall format, is_format format = true ->
            or_str (qq_format q) "png" = format ->
            qrcode_GET isUrl toDataURL toBuffer q
            = if String.eqb format "dataurl" then
                match toDataURL url size margin with
                | Some dataUrl => QrDataUrl dataUrl
                | None => QrError 500 "Failed to generate QR code"
                end
              else if String.eqb format "png" then
                match toBuffer url size margin with
                | Some buffer => QrImage buffer
                | None => QrError 500 "Failed to generate QR code"
                end
              else QrError 400 "Unsupported format").
  { intros format Hformat Hf.
    unfold qrcode_GET, qrCodeSchema_parse, generateQRCode, generateQRCodeBuffer.
    cbv zeta. rewrite Hq, Hf, Hs, Hm.
    destruct url; [contradiction|]. cbn [truthy_ostr truthy_str negb or_str].
    rewrite Hurl, Hformat, Hsize, Hmargin. cbn [andb qd_size qd_margin].
    destruct (String.eqb format "dataurl");
      [now destruct (toDataURL _ _ _)|].
    destruct (String.eqb format "png"); [now destruct (toBuffer _ _ _)|].
    reflexivity. }
  split; [|split].
  - intros Hf. split.
    + rewrite (Hget "svg"); [reflexivity | reflexivity | now rewrite Hf].
    + unfold qrcode_POST, qrCodeSchema_parse.
      cbn [qr_url qr_format qr_size qr_margin].
      now rewrite Hurl, Hsize, Hmargin.
  - intros Hf.
    rewrite (Hget "dataurl"); [reflexivity | reflexivity | now rewrite Hf].
  - intros Hf. rewrite (Hget "png"); [reflexivity | reflexivity |].
    destruct Hf as [Hf | ->]; [|reflexivity].
    unfold or_str, truthy_ostr in *.
    destruct (qq_format q); [now rewrite Hf | reflexivity].
Qed.

End QrFacts.

Lemma qr_bad_input_400_or_500_witness :
  qrcode_POST always_url sample_toDataURL sample_toBuffer
    (mkQrBody "https://example.com" (Some "png") (Some (Num 50)) (Some (Num 2)))
  = QrError 400 "Validation failed"
  /\ qrcode_GET always_url sample_toDataURL sample_toBuffer
       (mkQrQuery (Some "https://example.com") None (Some "50") None)
     = QrError 500 "Failed to generate QR code".
Proof.
  destruct (qr_bad_input_400_or_500 always_url sample_toDataURL
              sample_toBuffer "https://example.com" "png" (Num 50) (Num 2)
              eq_refl) as (Hpost & Hget & _).
  split; [exact Hpost|].
  apply Hget; try reflexivity. discriminate.
Defined.

Lemma qr_formats_witness :
  qrcode_GET always_url sample_toDataURL sample_toBuffer
    (mkQrQuery (Some "https://example.com") (Some "svg") (Some "300px") None)
  = QrError 400 "Unsupported format".
Proof.
  apply (qr_formats always_url sample_toDataURL sample_toBuffer
           "https://example.com" (Num 300) (Num 2));
    try reflexivity. discriminate.
Defined.

(* ================================================================== *)
(** * The hourly distribution *)

Lemma count_hour_bucket h k acc :
  bucket k (count_hour h acc) = bucket k acc + (if h =? k then 1 else 0).
Proof.
  induction acc as [|(k', n) rest IH]; cbn [count_hour bucket].
  - destruct (h =? k); lia.
  - destruct (h <? k') eqn:Hlt.
    + cbn [bucket]. destruct (h =? k); lia.
    + destruct (h =? k') eqn:Heq.
      * apply Z.eqb_eq in Heq. subst k'. cbn [bucket].
        destruct (h =? k); destruct (n =? 0) eqn:Hn;
          try apply Z.eqb_eq in Hn; lia.
      * cbn [bucket]. rewrite IH. lia.
Qed.

Lemma count_hour_keys h acc p :
  In p (count_hour h acc) -> fst p = h \/ In (fst p) (map fst acc).
Proof.
  induction acc as [|(k', n) rest IH]; cbn [count_hour].
  - intros [<- | []]. now left.
  - destruct (h <? k').
    + intros [<- | Hin]; [now left|]. right. now apply in_map.
    + destruct (h =? k') eqn:Heq.
      * intros [<- | Hin]; cbn; [right; now left|].
        right. right. now apply in_map.
      * intros [<- | Hin]; cbn; [right; now left|].
        destruct (IH Hin) as [-> | Hrest]; [now left | right; now right].
Qed.

Lemma count_hour_ascending h acc :
  ascending_keys acc -> ascending_keys (count_hour h acc).
Proof.
  unfold ascending_keys.
  induction 1 as [|(k', n) rest Hsorted IH Hall]; cbn [count_hour].
  - repeat constructor.
  - destruct (h <? k') eqn:Hlt.
    + apply Z.ltb_lt in Hlt. constructor; [now constructor|].
      constructor; [exact Hlt|].
      eapply Forall_impl; [|exact Hall]. cbn. intros; lia.
    + destruct (h =? k') eqn:Heq.
      * constructor; [exact Hsorted | exact Hall].
      * apply Z.ltb_ge in Hlt. apply Z.eqb_neq in Heq.
        constructor; [exact IH|].
        apply Forall_forall. intros p Hp.
        destruct (count_hour_keys _ _ _ Hp) as [-> | Hin]; cbn; [lia|].
        apply in_map_iff in Hin. destruct Hin as (p' & <- & Hin').
        rewrite Forall_forall in Hall. now apply (Hall p').
Qed.

Lemma count_hour_key_set h acc k :
  In k (map fst (count_hour h acc)) -> k = h \/ In k (map fst acc).
Proof.
  intros Hin. apply in_map_iff in Hin. destruct Hin as (p & <- & Hp).
  now apply count_hour_keys.
Qed.

Lemma count_hour_sum h acc :
  fold_right Z.add 0 (map snd (count_hour h acc))
  = fold_right Z.add 0 (map snd acc) + 1.
Proof.
  induction acc as [|(k', n) rest IH]; cbn [count_hour]; [reflexivity|].
  destruct (h <? k'); [cbn [map snd fold_right]; lia|].
  destruct (h =? k').
  - cbn [map snd fold_right].
    destruct (n =? 0) eqn:Hn; try apply Z.eqb_eq in Hn; lia.
  - cbn [map snd fold_right]. rewrite IH. lia.
Qed.

Lemma hourly_fold vs acc :
  let stats := fold_left
                 (fun acc v => count_hour (getHours (Visitor.visited_at v)) acc)
                 vs acc in
  (ascending_keys acc -> ascending_keys stats)
  /\ (forall h, bucket h stats = bucket h acc + visits_in_hour h vs)
  /\ (forall k, In k (map fst stats) ->
        In k (map fst acc)
        \/ exists v, In v vs /\ k = getHours (Visitor.visited_at v))
  /\ fold_right Z.add 0 (map snd stats)
     = fold_right Z.add 0 (map snd acc) + Z.of_nat (length vs).
Proof.
  revert acc. induction vs as [|v vs IH]; intros acc; cbn [fold_left].
  - split; [auto|]. split; [intros h; unfold visits_in_hour; cbn; lia|].
    split; [auto | cbn; lia].
  - destruct (IH (count_hour (getHours (Visitor.visited_at v)) acc))
      as (Hasc & Hbucket & Hkeys & Hsum).
    cbv zeta. split; [|split; [|split]].
    + intros Hacc. now apply Hasc, count_hour_ascending.
    + intros h. rewrite Hbucket, count_hour_bucket.
      unfold visits_in_hour. cbn [filter].
      destruct (getHours (Visitor.visited_at v) =? h); cbn [length]; lia.
    + intros k Hk. destruct (Hkeys k Hk) as [Hin | (v' & Hv' & Hfst)].
      * destruct (count_hour_key_set _ _ _ Hin) as [Hh | Hold].
        -- right. exists v. split; [now left | exact Hh].
        -- now left.
      * right. exists v'. split; [now right | exact Hfst].
    + rewrite Hsum, count_hour_sum. cbn [length]. lia.
Qed.

(** X28. The hourly distribution of the analytics answer has one entry
    per hour of the day in which a visit was made, hours in ascending
    order between 0 and 23; the count of an hour is the number of visits
    made in that hour, on whatever day, and the counts add up to the
    number of visits. *)
Theorem hourly_counts (vs : list Visitor) :
  ascending_keys (hourlyStats vs)
  /\ (forall k, In k (map fst (hourlyStats vs)) ->
        0 <= k < 24
        /\ exists v, In v vs /\ k = getHours (Visitor.visited_at v))
  /\ (forall h, bucket h (hourlyStats vs) = visits_in_hour h vs)
  /\ fold_right Z.add 0 (map snd (hourlyStats vs)) = Z.of_nat (length vs).
Proof.
  destruct (hourly_fold vs []) as (Hasc & Hbucket & Hkeys & Hsum).
  fold (hourlyStats vs) in *.
  split; [apply Hasc; constructor|]. split; [|split].
  - intros k Hk. destruct (Hkeys k Hk) as [[] | (v & Hv & ->)].
    split; [|now exists v].
    unfold getHours. apply Z.mod_pos_bound. lia.
  - intros h. now rewrite Hbucket.
  - now rewrite Hsum.
Qed.

Lemma hourly_counts_witness :
  bucket 0 (hourlyStats (visitors (db busy_world))) = 21.
Proof.
  destruct (hourly_counts (visitors (db busy_world))) as (_ & _ & Hbucket & _).
  rewrite Hbucket. reflexivity.
Defined.
